(** * The SQLAlchemy panel of the debug toolbar

    A shallow embedding of [debug_toolbar/panels/sqlalchemy.py]
    ([SQLAlchemyPanel]) and of the collaborators it calls: SQLAlchemy's
    event registry ([event.listen], [event.remove], the dispatch of
    [before_cursor_execute] and [after_cursor_execute]), the monotonic
    clock ([perf_counter]), FastAPI's [solve_dependencies], and the
    query log of the [SQLPanel] base class.

    Python objects are mutable and shared, so the panel instances live in
    a heap indexed by their identity, the listener registry is one global
    list, and every method is a computation over that world which either
    returns a value or raises.

    - [self.engines] is a Python [set] of engines hashed by identity: a
      [gset Engine]; [for engine in self.engines] visits [elements] of it,
      one fixed order for a given set.
    - [perf_counter()] returns a binary64 float: the primitive [float],
      with the arithmetic of [(now - start) * 1000] as IEEE 754 has it.
    - SQLAlchemy keys a listener by target, event name and bound method
      (function and instance); [event.listen] ignores a key already
      registered, [event.remove] raises [InvalidRequestError] for a key
      that is not registered, and an event calls the listeners of its
      target in registration order.
    - A coroutine suspended at [await super().process_request(request)]
      lets other requests run: whatever happens in between is part of the
      delegated computation. *)

From Stdlib Require Import ZArith Floats Bool List String Lia.
From stdpp Require Import gmap strings list.

Set Warnings "-clear-no-such-hyp".

Local Open Scope string_scope.

(** ** Exceptions and results *)

Inductive Exn : Type :=
| HTTPException (status_code : nat)
| InvalidRequestError
| AttributeError (attr : string)
| KeyError (key : string)
| OtherError (name : string).

Definition Result (A : Type) : Type := (Exn + A)%type.

(** ** Data model *)

(** An [Engine] is compared and hashed by identity; its URL never
    changes. *)
Record Engine : Type := mkEngine { engine_id : positive; url : string }.

#[global] Instance Engine_eq_dec : EqDecision Engine.
Proof. solve_decision. Defined.

#[global] Instance Engine_countable : Countable Engine.
Proof.
  refine (inj_countable' (fun e => (engine_id e, url e))
                         (fun p => mkEngine (fst p) (snd p)) _).
  intros []; reflexivity.
Defined.

Definition Parameters : Type := list (string * string).

(** SQLAlchemy's [ExecutionContext]; [_start_time] is the attribute the
    panel adds, absent ([None]) until [before_execute] sets it. *)
Record ExecutionContext : Type := mkContext {
  engine : Engine;
  statement : string;
  parameters : Parameters;
  _start_time : option float
}.

(** The dict [after_execute] builds. *)
Record Query : Type := mkQuery {
  duration : float;
  sql : string;
  params : Parameters
}.

(** The state of one [SQLAlchemyPanel] instance: [self.engines], and the
    query log kept by the [SQLPanel] base class. *)
Record Panel : Type := mkPanel {
  engines : gset Engine;
  _queries : list (string * Query)
}.

(** [__init__]: an empty engine set (and an empty log). *)
Definition new_panel : Panel := {| engines := ∅; _queries := [] |}.

Definition PanelId : Type := positive.

Inductive EventName : Type := before_cursor_execute | after_cursor_execute.
Inductive MethodName : Type := m_before_execute | m_after_execute.

#[global] Instance EventName_eq_dec : EqDecision EventName.
Proof. solve_decision. Defined.
#[global] Instance MethodName_eq_dec : EqDecision MethodName.
Proof. solve_decision. Defined.

(** A bound method [self.before_execute] is identified by the instance and
    the function, which is how SQLAlchemy keys a listener. *)
Definition BoundMethod : Type := (PanelId * MethodName)%type.
Definition Listener : Type := (Engine * EventName * BoundMethod)%type.

(** The world: SQLAlchemy's listener registry in registration order, the
    panel instances, and the reading of the monotonic clock. *)
Record World : Type := mkWorld {
  registry : list Listener;
  heap : gmap PanelId Panel;
  clock : float
}.

Definition panel_of (w : World) (self : PanelId) : Panel :=
  default new_panel (heap w !! self).

Definition set_registry (r : list Listener) (w : World) : World :=
  {| registry := r; heap := heap w; clock := clock w |}.
Definition set_panel (self : PanelId) (p : Panel) (w : World) : World :=
  {| registry := registry w; heap := <[self := p]> (heap w); clock := clock w |}.
Definition set_clock (t : float) (w : World) : World :=
  {| registry := registry w; heap := heap w; clock := t |}.

(** ** Computations that may raise *)

Definition M (A : Type) : Type := World -> Result A * World.

Definition ret {A} (a : A) : M A := fun w => (inr a, w).
Definition raise {A} (e : Exn) : M A := fun w => (inl e, w).
Definition bind {A B} (c : M A) (k : A -> M B) : M B :=
  fun w => match c w with
           | (inr a, w') => k a w'
           | (inl e, w') => (inl e, w')
           end.

Declare Scope py_scope.
Delimit Scope py_scope with py.
Notation "x <- c ;; k" := (bind c (fun x => k))
  (at level 100, c at next level, right associativity) : py_scope.
Notation "c ;; k" := (bind c (fun _ => k))
  (at level 100, right associativity) : py_scope.
Local Open Scope py_scope.

(** [try: body finally: cleanup]. The cleanup always runs; when it raises,
    its exception replaces the outcome of the body. *)
Definition try_finally {A} (body : M A) (cleanup : M unit) : M A :=
  fun w => let (r, w1) := body w in
           match cleanup w1 with
           | (inr _, w2) => (r, w2)
           | (inl e, w2) => (inl e, w2)
           end.

(** [try: body except HTTPException: handler else: orelse]. *)
Definition try_except_HTTPException {A B} (body : M A) (handler : M B)
    (orelse : A -> M B) : M B :=
  fun w => match body w with
           | (inr a, w1) => orelse a w1
           | (inl (HTTPException _), w1) => handler w1
           | (inl e, w1) => (inl e, w1)
           end.

(** [for x in l: body x]; an exception leaves the loop. *)
Fixpoint for_each {A} (l : list A) (body : A -> M unit) : M unit :=
  match l with
  | [] => ret tt
  | x :: l' => body x ;; for_each l' body
  end.

Definition get_panel (self : PanelId) : M Panel :=
  fun w => (inr (panel_of w self), w).
Definition put_panel (self : PanelId) (p : Panel) : M unit :=
  fun w => (inr tt, set_panel self p w).

(** ** The collaborators *)

(** [time.perf_counter()]. *)
Definition perf_counter : M float := fun w => (inr (clock w), w).

(** [sqlalchemy.event.listen(target, identifier, fn)]: a listener already
    registered under the same key is not added again. *)
Definition event_listen (target : Engine) (identifier : EventName)
    (fn : BoundMethod) : M unit :=
  fun w => let l := (target, identifier, fn) in
           if decide (l ∈ registry w) then (inr tt, w)
           else (inr tt, set_registry (registry w ++ [l]) w).

(** [sqlalchemy.event.remove(target, identifier, fn)]: raises
    [InvalidRequestError] when no such listener is registered. *)
Definition event_remove (target : Engine) (identifier : EventName)
    (fn : BoundMethod) : M unit :=
  fun w => let l := (target, identifier, fn) in
           if decide (l ∈ registry w)
           then (inr tt, set_registry (filter (fun l' => l' ≠ l) (registry w)) w)
           else (inl InvalidRequestError, w).

(** Modelled from the spec: [SQLPanel.add_query] of
    [debug_toolbar/panels/sql.py], "a request-scoped Query Log append
    operation keyed by engine URL"; the log is an append-only sequence. *)
Definition add_query (self : PanelId) (alias : string) (query : Query) : M unit :=
  p <- get_panel self ;;
  put_panel self {| engines := engines p; _queries := _queries p ++ [(alias, query)] |}.

(** ** [SQLAlchemyPanel] *)

Definition register (self : PanelId) (engine : Engine) : M unit :=
  event_listen engine before_cursor_execute (self, m_before_execute) ;;
  event_listen engine after_cursor_execute (self, m_after_execute).

Definition unregister (self : PanelId) (engine : Engine) : M unit :=
  event_remove engine before_cursor_execute (self, m_before_execute) ;;
  event_remove engine after_cursor_execute (self, m_after_execute).

(** [context._start_time = perf_counter()]; the context is mutated in
    place, so the updated context is what later listeners see. *)
Definition before_execute (self : PanelId) (context : ExecutionContext)
    : M ExecutionContext :=
  t <- perf_counter ;;
  ret {| engine := engine context; statement := statement context;
         parameters := parameters context; _start_time := Some t |}.

Definition after_execute (self : PanelId) (context : ExecutionContext) : M unit :=
  now <- perf_counter ;;
  match _start_time context with
  | None => raise (AttributeError "_start_time")
  | Some start =>
      let query := {| duration := ((now - start) * 1000)%float;
                      sql := statement context;
                      params := parameters context |} in
      add_query self (url (engine context)) query
  end.

(** ** Engine discovery *)

(** What a session is bound to: an [Engine], or a [Connection] whose
    [.engine] is the pool it came from. *)
Inductive Bind : Type :=
| BindEngine (e : Engine)
| BindConnection (connection_engine : Engine).

(** An ORM [Session]: its private table of binds (absent, empty, or one
    bind per mapped class) and what [get_bind()] gives, which may raise. *)
Record Session : Type := mkSession {
  _Session__binds : option (list (string * Bind));
  get_bind : Result Bind
}.

(** A resolved dependency value. *)
Inductive Value : Type :=
| AsyncSessionValue (sync_session : option Session)
| SessionValue (s : Session)
| OtherValue.

(** A dependency graph, represented by what one call of
    [solve_dependencies] gives for the request at hand: the resolved
    values by name ([solved_result[0]]), or the exception it raises.
    The call runs the route's dependency callables; what these do to the
    world while they run, and whether a second call would give the same
    values, is outside this model: the facts about discovery below
    concern one resolution, its result, the engine set and the panel's
    listeners. *)
Definition Dependant : Type := Result (list (string * Value)).

Record Route : Type := mkRoute { dependant : option Dependant }.
Record Request : Type := mkRequest { route : option Route }.
Record Response : Type := mkResponse { status_code : nat }.

(** [request["route"]]. *)
Definition getitem_route (request : Request) : M Route :=
  match route request with
  | Some r => ret r
  | None => raise (KeyError "route")
  end.

Definition solve_dependencies (request : Request) (d : Dependant)
    : M (list (string * Value)) :=
  fun w => (d, w).

(** [self.engines.add(e)]. *)
Definition engines_add (self : PanelId) (e : Engine) : M unit :=
  p <- get_panel self ;;
  put_panel self {| engines := engines p ∪ {[ e ]}; _queries := _queries p |}.

(** The local function of [add_engines]: a [Connection] contributes its
    [.engine], anything else is taken to be the engine itself. *)
Definition add_bind_to_engines (self : PanelId) (bind : Bind) : M unit :=
  match bind with
  | BindConnection e => engines_add self e
  | BindEngine e => engines_add self e
  end.

(** [value.get_bind()]. *)
Definition call_get_bind (s : Session) : M Bind := fun w => (get_bind s, w).

(** The two [isinstance] tests on a value: an [AsyncSession] is replaced
    by [getattr(value, "sync_session", None)], and the result is kept
    when it is a [Session]. *)
Definition as_session (value : Value) : option Session :=
  match value with
  | AsyncSessionValue ss => ss
  | SessionValue s => Some s
  | OtherValue => None
  end.

(** The body of the loop over the resolved values. [if binds:] holds
    for a table with at least one entry. *)
Definition inspect_value (self : PanelId) (value : Value) : M unit :=
  match as_session value with
  | Some s =>
      match _Session__binds s with
      | Some ((_ :: _) as binds) =>
          for_each (map snd binds) (add_bind_to_engines self)
      | _ =>
          bind <- call_get_bind s ;;
          add_bind_to_engines self bind
      end
  | None => ret tt
  end.

Definition add_engines (self : PanelId) (request : Request) : M unit :=
  route <- getitem_route request ;;
  match dependant route with
  | Some d =>
      try_except_HTTPException
        (solve_dependencies request d)
        (ret tt)
        (fun solved_result =>
           for_each (map snd solved_result) (inspect_value self))
  | None => ret tt
  end.

(** ** The request lifecycle *)

Section Lifecycle.

(** Modelled from the spec: [process_request] of the base class, "a base
    process-the-rest-of-the-pipeline delegate call that returns a
    response or raises". It runs the handler, so it may do anything to
    the world. *)
Variable super_process_request : PanelId -> Request -> M Response.

Definition process_request (self : PanelId) (request : Request) : M Response :=
  add_engines self request ;;
  p <- get_panel self ;;
  for_each (elements (engines p)) (register self) ;;
  try_finally
    (super_process_request self request)
    (p <- get_panel self ;;
     for_each (elements (engines p)) (unregister self)).

End Lifecycle.

(** The two loops of [process_request], named: [for engine in
    self.engines: self.register(engine)] and, in the [finally] block,
    [for engine in self.engines: self.unregister(engine)]. *)
Definition install_hooks (self : PanelId) : M unit :=
  p <- get_panel self ;;
  for_each (elements (engines p)) (register self).

Definition remove_hooks (self : PanelId) : M unit :=
  p <- get_panel self ;;
  for_each (elements (engines p)) (unregister self).

(** ** Statement execution on an engine *)

(** Calling a registered listener. *)
Definition call_listener (fn : BoundMethod) (context : ExecutionContext)
    : M ExecutionContext :=
  match fn with
  | (self, m_before_execute) => before_execute self context
  | (self, m_after_execute) => after_execute self context ;; ret context
  end.

(** The engine calls, in registration order, the listeners registered on
    it for the event. *)
Fixpoint dispatch (ls : list Listener) (identifier : EventName)
    (context : ExecutionContext) : M ExecutionContext :=
  match ls with
  | [] => ret context
  | (target, id, fn) :: ls' =>
      if decide (target = engine context ∧ id = identifier)
      then context' <- call_listener fn context ;;
           dispatch ls' identifier context'
      else dispatch ls' identifier context
  end.

Definition get_registry : M (list Listener) := fun w => (inr (registry w), w).

(** The database works until the clock reads [t]. *)
Definition run_until (t : float) : M unit := fun w => (inr tt, set_clock t w).

(** One statement executed through engine [e]: a fresh execution context,
    the before event, the statement itself, the after event. *)
Definition cursor_execute (e : Engine) (stmt : string) (ps : Parameters)
    (finished_at : float) : M unit :=
  let context := {| engine := e; statement := stmt; parameters := ps;
                    _start_time := None |} in
  ls <- get_registry ;;
  context' <- dispatch ls before_cursor_execute context ;;
  run_until finished_at ;;
  ls' <- get_registry ;;
  dispatch ls' after_cursor_execute context' ;;
  ret tt.

(** ** Vocabulary for the statements *)

(** The two listeners [register] installs on an engine for a panel. *)
Definition before_listener (self : PanelId) (e : Engine) : Listener :=
  (e, before_cursor_execute, (self, m_before_execute)).
Definition after_listener (self : PanelId) (e : Engine) : Listener :=
  (e, after_cursor_execute, (self, m_after_execute)).

(** The panel's hook is installed on the engine. *)
Definition hooked (self : PanelId) (e : Engine) (r : list Listener) : Prop :=
  before_listener self e ∈ r ∧ after_listener self e ∈ r.

(** A listener as [register] installs it: each method on its own event. *)
Definition matched (l : Listener) : Prop :=
  match l with
  | (_, before_cursor_execute, (_, m_before_execute)) => True
  | (_, after_cursor_execute, (_, m_after_execute)) => True
  | _ => False
  end.

(** A registry as [event.listen] builds it from [register] calls. *)
Definition wf_registry (r : list Listener) : Prop :=
  NoDup r ∧ Forall matched r.

(** What discovery may do to the world: nothing but add engines to the
    panel's own set. *)
Definition only_adds_engines (self : PanelId) (w w' : World) : Prop :=
  registry w' = registry w /\ clock w' = clock w /\
  (forall p, p ≠ self -> panel_of w' p = panel_of w p) /\
  _queries (panel_of w' self) = _queries (panel_of w self) /\
  engines (panel_of w self) ⊆ engines (panel_of w' self).

(** The engine a bind stands for. *)
Definition bind_engine (b : Bind) : Engine :=
  match b with
  | BindEngine e => e
  | BindConnection e => e
  end.

(** The execution context once [before_execute] has run at clock
    reading [t]. *)
Definition started_at (t : float) (context : ExecutionContext) : ExecutionContext :=
  {| engine := engine context; statement := statement context;
     parameters := parameters context; _start_time := Some t |}.

(** The record [after_execute] builds at clock reading [now] for a
    statement started at [start]. *)
Definition timed_query (start now : float) (context : ExecutionContext) : Query :=
  {| duration := ((now - start) * 1000)%float;
     sql := statement context;
     params := parameters context |}.




(** Signs of binary64 values, read on their specification. *)
Definition SF_nonneg (x : spec_float) : bool :=
  match x with
  | S754_nan => false
  | S754_zero _ => true
  | S754_infinity s | S754_finite s _ _ => negb s
  end.

Definition SF_has_sign (sx : bool) (x : spec_float) : Prop :=
  match x with
  | S754_nan => False
  | S754_zero s | S754_infinity s | S754_finite s _ _ => s = sx
  end.

(** ** Concrete scenarios *)

Definition engine_app : Engine := mkEngine 1 "postgresql://db/app".
Definition engine_shard : Engine := mkEngine 2 "postgresql://db/shard".

Definition panel_a : PanelId := 1%positive.
Definition panel_b : PanelId := 2%positive.

(** Nothing registered, no panel touched yet, the clock at zero. *)
Definition world0 : World := {| registry := []; heap := ∅; clock := 0%float |}.

Definition session_app : Session :=
  {| _Session__binds := None; get_bind := inr (BindEngine engine_app) |}.

Definition session_sharded : Session :=
  {| _Session__binds := Some [("User", BindEngine engine_app);
                              ("Order", BindConnection engine_shard);
                              ("Item", BindEngine engine_app)];
     get_bind := inr (BindEngine engine_app) |}.

(** [get_bind()] of a session without any bind raises. *)
Definition session_unbound : Session :=
  {| _Session__binds := None;
     get_bind := inl (OtherError "UnboundExecutionError") |}.

Definition request_of (values : list (string * Value)) : Request :=
  {| route := Some {| dependant := Some (inr values) |} |}.

Definition request_app : Request :=
  request_of [("db", SessionValue session_app)].

Definition request_sharded : Request :=
  request_of [("db", SessionValue session_sharded);
              ("adb", AsyncSessionValue (Some session_sharded))].

Definition request_unbound_first : Request :=
  request_of [("audit", SessionValue session_unbound);
              ("db", SessionValue session_app)].

Definition request_unauthorized : Request :=
  {| route := Some {| dependant := Some (inl (HTTPException 401)) |} |}.

Definition handler_ok : PanelId -> Request -> M Response :=
  fun _ _ => ret {| status_code := 200 |}.

Definition handler_raises : PanelId -> Request -> M Response :=
  fun _ _ => raise (OtherError "RuntimeError").

(** The world [panel_a]'s delegate is given for [request_app]: discovery
    done, hooks installed. *)
Definition world_app_instrumented : World :=
  snd (install_hooks panel_a (snd (add_engines panel_a request_app world0))).


(** A handler that calls the public [unregister] on one engine. *)
Definition handler_unregisters_app : PanelId -> Request -> M Response :=
  fun self _ => unregister self engine_app ;; ret {| status_code := 200 |}.

(** The same for [request_sharded], and the world its handler
    [handler_unregisters_app] leaves. *)
Definition world_sharded_instrumented : World :=
  snd (install_hooks panel_a (snd (add_engines panel_a request_sharded world0))).

Definition world_sharded_after_handler : World :=
  snd (handler_unregisters_app panel_a request_sharded world_sharded_instrumented).

(** A handler that runs one statement, started and finished at the given
    clock readings. *)
Definition handler_select (e : Engine) (stmt : string) (ps : Parameters)
    (started_at finished_at : float) : PanelId -> Request -> M Response :=
  fun _ _ =>
    run_until started_at ;;
    cursor_execute e stmt ps finished_at ;;
    ret {| status_code := 200 |}.

(** A handler that runs [SELECT 1] and then [SELECT 2]. *)
Definition handler_two_selects : PanelId -> Request -> M Response :=
  fun _ _ =>
    run_until 1%float ;;
    cursor_execute engine_app "SELECT 1" [] 1.25%float ;;
    cursor_execute engine_app "SELECT 2" [] 2%float ;;
    ret {| status_code := 200 |}.

(** What happens while the handler of one request is suspended without
    running any statement: another request, on panel [panel_b], is
    processed from start to end and runs one statement. *)
Definition pipeline_overlapped_by_b : PanelId -> Request -> M Response :=
  fun _ _ =>
    process_request
      (handler_select engine_app "SELECT b" [] 1%float 1.5%float)
      panel_b request_app ;;
    ret {| status_code := 200 |}.

(** ** Vocabulary for further properties *)

(** A listener is one of the panel's two hooks on an engine of the list. *)
Definition own_hook (self : PanelId) (l : list Engine) (x : Listener) : Prop :=
  Exists (fun e => x = before_listener self e \/ x = after_listener self e) l.

#[global] Instance own_hook_dec self l x : Decision (own_hook self l x).
Proof. unfold own_hook. apply Exists_dec. intros e. apply _. Defined.

(** The engines the loop body of [add_engines] adds for a session: those
    of its table of binds when the table has an entry, else the one
    [get_bind()] returns, when it returns. *)
Definition session_engines (s : Session) : list Engine :=
  match _Session__binds s with
  | Some ((_ :: _) as binds) => map (fun x => bind_engine (snd x)) binds
  | _ => match get_bind s with
         | inr b => [bind_engine b]
         | inl _ => []
         end
  end.

(** The engines the loop body adds for a resolved value: none for a
    value that is not a session. *)
Definition value_engines (v : Value) : list Engine :=
  match as_session v with
  | Some s => session_engines s
  | None => []
  end.


(** A request whose scope has no ["route"] key. *)
Definition request_unrouted : Request := {| route := None |}.

(** A session created with both a default bind and a table of binds:
    [Session(bind=app, binds={Order: shard})]. It is bound to two
    engines; [get_bind()] without a mapper returns the default one. *)
Definition session_default_and_table : Session :=
  {| _Session__binds := Some [("Order", BindEngine engine_shard)];
     get_bind := inr (BindEngine engine_app) |}.

(** A session bound to one engine through a [Connection]. *)
Definition session_on_connection : Session :=
  {| _Session__binds := Some []; get_bind := inr (BindConnection engine_shard) |}.

(** * Facts *)

(** ** Binary64 arithmetic on clock readings *)

Lemma SF_has_sign_nonneg x : SF_has_sign false x -> SF_nonneg x = true.
Proof. destruct x; simpl; intros; subst; tauto. Qed.

Lemma SFleb_zero x : SFleb (S754_zero false) x = SF_nonneg x.
Proof. destruct x as [s|s| |s m e]; try destruct s; reflexivity. Qed.

Lemma shr_1_nonneg mrs : (0 <= shr_m mrs)%Z -> (0 <= shr_m (shr_1 mrs))%Z.
Proof.
  destruct mrs as [m r s]; simpl.
  destruct m as [|[p|p|]|[p|p|]]; simpl; lia.
Qed.

Lemma iter_shr_1_nonneg p : forall mrs,
  (0 <= shr_m mrs)%Z -> (0 <= shr_m (SpecFloat.iter_pos shr_1 p mrs))%Z.
Proof.
  induction p as [p IH|p IH|]; intros mrs H; simpl.
  - apply IH, IH, shr_1_nonneg, H.
  - apply IH, IH, H.
  - apply shr_1_nonneg, H.
Qed.

Lemma shr_fexp_nonneg m e l :
  (0 <= m)%Z -> (0 <= shr_m (fst (shr_fexp prec emax m e l)))%Z.
Proof.
  intros H. unfold shr_fexp, shr.
  assert (H0 : (0 <= shr_m (shr_record_of_loc m l))%Z)
    by (destruct l as [|[]]; exact H).
  destruct (fexp prec emax (Zdigits2 m + e) - e)%Z; simpl; auto.
  apply iter_shr_1_nonneg, H0.
Qed.

Lemma round_nearest_even_nonneg m l :
  (0 <= m)%Z -> (0 <= round_nearest_even m l)%Z.
Proof.
  intros H. destruct l as [|[]]; simpl; try lia.
  destruct (Z.even m); lia.
Qed.

Lemma binary_round_aux_sign sx mx ex lx :
  (0 <= mx)%Z -> SF_has_sign sx (binary_round_aux prec emax sx mx ex lx).
Proof.
  intros H. unfold binary_round_aux.
  pose proof (shr_fexp_nonneg mx ex lx H) as H1.
  destruct (shr_fexp prec emax mx ex lx) as [mrs' e']. simpl in H1.
  pose proof (shr_fexp_nonneg _ e' loc_Exact
                (round_nearest_even_nonneg _ (loc_of_shr_record mrs') H1)) as H2.
  destruct (shr_fexp prec emax _ e' loc_Exact) as [mrs'' e'']. simpl in H2.
  destruct (shr_m mrs'') as [|m|m]; simpl; try reflexivity; try lia.
  destruct (e'' <=? emax - prec)%Z; reflexivity.
Qed.

Lemma binary_normalize_nonneg m e :
  (0 <= m)%Z -> SF_nonneg (binary_normalize prec emax m e false) = true.
Proof.
  intros H. destruct m as [|m|m]; simpl; try reflexivity; try lia.
  apply SF_has_sign_nonneg. unfold binary_round.
  destruct (shl_align m e _) as [mz ez].
  apply binary_round_aux_sign. lia.
Qed.

Lemma digits2_pos_bounds m :
  (2 ^ (Zpos (digits2_pos m) - 1) <= Zpos m < 2 ^ Zpos (digits2_pos m))%Z.
Proof.
  induction m as [m IH|m IH|]; simpl digits2_pos.
  - rewrite Pos2Z.inj_succ.
    replace (Z.succ (Zpos (digits2_pos m)) - 1)%Z
      with (Z.succ (Zpos (digits2_pos m) - 1)) by lia.
    rewrite !Z.pow_succ_r by lia. lia.
  - rewrite Pos2Z.inj_succ.
    replace (Z.succ (Zpos (digits2_pos m)) - 1)%Z
      with (Z.succ (Zpos (digits2_pos m) - 1)) by lia.
    rewrite !Z.pow_succ_r by lia. lia.
  - simpl. lia.
Qed.

Lemma iter_xO m d : Zpos (Pos.iter xO m d) = (Zpos m * 2 ^ Zpos d)%Z.
Proof.
  induction d as [|d IH] using Pos.peano_ind.
  - simpl. lia.
  - rewrite Pos.iter_succ, Pos2Z.inj_succ, Z.pow_succ_r by lia.
    rewrite Pos2Z.inj_xO, IH. lia.
Qed.

Lemma shl_align_value m e e' :
  (e' <= e)%Z -> Zpos (fst (shl_align m e e')) = (Zpos m * 2 ^ (e - e'))%Z.
Proof.
  intros H. unfold shl_align. destruct (e' - e)%Z as [|d|d] eqn:E; simpl.
  - replace (e - e')%Z with 0%Z by lia. lia.
  - lia.
  - rewrite iter_xO. f_equal. f_equal. lia.
Qed.

Lemma bounded_canonical m e :
  bounded prec emax m e = true ->
  Z.max (Zpos (digits2_pos m) + e - 53) (-1074) = e.
Proof.
  unfold bounded, canonical_mantissa, fexp, emin, prec, emax.
  intros H. apply andb_true_iff in H as [H _]. apply Z.eqb_eq in H. exact H.
Qed.

(** Two canonical mantissas brought to the smaller exponent compare as
    their exponents do. *)
Lemma aligned_lt mx ex my ey :
  bounded prec emax mx ex = true -> bounded prec emax my ey = true ->
  (ey < ex)%Z ->
  (Zpos my * 2 ^ (ey - Z.min ex ey) < Zpos mx * 2 ^ (ex - Z.min ex ey))%Z.
Proof.
  intros Hx Hy Hlt. apply bounded_canonical in Hx, Hy.
  pose proof (digits2_pos_bounds mx) as Bx.
  pose proof (digits2_pos_bounds my) as By.
  rewrite Z.min_r by lia. rewrite Z.sub_diag. change (2 ^ 0)%Z with 1%Z.
  assert (Dx : Zpos (digits2_pos mx) = 53%Z) by lia.
  assert (Dy : (Zpos (digits2_pos my) <= 53)%Z) by lia.
  rewrite Dx in Bx. change (2 ^ (53 - 1))%Z with 4503599627370496%Z in Bx.
  assert (Py : (2 ^ Zpos (digits2_pos my) <= 2 ^ 53)%Z)
    by (apply Z.pow_le_mono_r; lia).
  change (2 ^ 53)%Z with 9007199254740992%Z in Py.
  assert (Pe : (2 ^ 1 <= 2 ^ (ex - ey))%Z) by (apply Z.pow_le_mono_r; lia).
  change (2 ^ 1)%Z with 2%Z in Pe.
  nia.
Qed.

Lemma SFsub_nonneg x y :
  valid_binary x = true -> valid_binary y = true ->
  SFleb y x = true ->
  match x with S754_infinity _ => False | _ => True end ->
  SF_nonneg (SF64sub x y) = true.
Proof.
  intros Vx Vy Hle Hfin.
  destruct x as [sx|sx| |sx mx ex]; try contradiction;
    destruct y as [sy|sy| |sy my ey]; try discriminate Hle.
  - destruct sx, sy; reflexivity.
  - destruct sy; [reflexivity | discriminate Hle].
  - destruct sy; [reflexivity | discriminate Hle].
  - destruct sx; [discriminate Hle | reflexivity].
  - destruct sy; [reflexivity | discriminate Hle].
  - unfold SF64sub, SFsub. apply binary_normalize_nonneg.
    rewrite !shl_align_value by lia.
    simpl in Vx, Vy. unfold SFleb, SFcompare in Hle.
    destruct sx, sy; simpl cond_Zopp; try discriminate Hle.
    + destruct (Z.compare_spec ey ex) as [E|E|E]; try discriminate Hle.
      * subst ey. rewrite Pos.compare_cont_spec in Hle; simpl in Hle.
        destruct (Pos.compare_spec my mx) as [E|E|E]; try discriminate Hle.
        -- subst. lia.
        -- assert (0 < 2 ^ (ex - Z.min ex ex))%Z by (apply Z.pow_pos_nonneg; lia).
           nia.
      * pose proof (aligned_lt my ey mx ex Vy Vx E) as L.
        rewrite Z.min_comm in L. lia.
    + assert (0 < 2 ^ (ex - Z.min ex ey))%Z by (apply Z.pow_pos_nonneg; lia).
      assert (0 < 2 ^ (ey - Z.min ex ey))%Z by (apply Z.pow_pos_nonneg; lia).
      nia.
    + destruct (Z.compare_spec ey ex) as [E|E|E]; try discriminate Hle.
      * subst ey. rewrite Pos.compare_cont_spec in Hle; simpl in Hle.
        destruct (Pos.compare_spec my mx) as [E|E|E]; try discriminate Hle.
        -- subst. lia.
        -- assert (0 < 2 ^ (ex - Z.min ex ex))%Z by (apply Z.pow_pos_nonneg; lia).
           nia.
      * pose proof (aligned_lt mx ex my ey Vx Vy E) as L. lia.
Qed.

Lemma SFmul_nonneg x m e :
  SF_nonneg x = true -> SF_nonneg (SF64mul x (S754_finite false m e)) = true.
Proof.
  intros H. destruct x as [sx|[]| |[] mx ex]; try discriminate H;
    try reflexivity.
  unfold SF64mul, SFmul. apply SF_has_sign_nonneg, binary_round_aux_sign. lia.
Qed.

(** The float facts the panel needs: the elapsed time between two
    readings of a monotonic clock, in milliseconds, is not negative. *)
Lemma elapsed_ms_nonneg (start now : float) :
  (start <=? now)%float = true -> is_finite now = true ->
  (0 <=? (now - start) * 1000)%float = true.
Proof.
  intros Hle Hfin.
  rewrite FloatAxioms.leb_spec in Hle |- *.
  rewrite FloatAxioms.mul_spec, FloatAxioms.sub_spec.
  change (Prim2SF 0) with (S754_zero false). rewrite SFleb_zero.
  change (Prim2SF 1000) with (S754_finite false 8796093022208000 (-43)).
  apply SFmul_nonneg, SFsub_nonneg; auto using Prim2SF_valid.
  unfold is_finite, is_infinity in Hfin.
  rewrite FloatAxioms.eqb_spec, FloatAxioms.abs_spec in Hfin.
  destruct (Prim2SF now); auto.
  change (Prim2SF infinity) with (S754_infinity false) in Hfin.
  simpl in Hfin. rewrite orb_true_r in Hfin. discriminate Hfin.
Qed.


(** ** Loops *)

Lemma for_each_app {A} (l1 l2 : list A) (body : A -> M unit) (w : World) :
  for_each (l1 ++ l2) body w =
  match for_each l1 body w with
  | (inr _, w1) => for_each l2 body w1
  | (inl e, w1) => (inl e, w1)
  end.
Proof.
  revert w. induction l1 as [|a l1 IH]; intros w; simpl.
  - reflexivity.
  - unfold bind. destruct (body a w) as [[e|[]] w1]; auto.
Qed.

(** A relation between the worlds before and after that every iteration
    respects is respected by the loop, however it ends. *)
Lemma for_each_invariant {A} (R : World -> World -> Prop) (l : list A)
    (body : A -> M unit) :
  (forall w, R w w) ->
  (forall w1 w2 w3, R w1 w2 -> R w2 w3 -> R w1 w3) ->
  (forall x w, R w (snd (body x w))) ->
  forall w, R w (snd (for_each l body w)).
Proof.
  intros Hrefl Htrans Hbody. induction l as [|a l IH]; intros w; simpl.
  - apply Hrefl.
  - unfold bind. pose proof (Hbody a w) as Ha.
    destruct (body a w) as [[e|[]] w1]; simpl in *; eauto.
Qed.

(** ** The listener registry *)

Lemma event_listen_spec target identifier fn w :
  exists w', event_listen target identifier fn w = (inr tt, w') /\
    heap w' = heap w /\ clock w' = clock w /\
    (forall l, l ∈ registry w' <-> l ∈ registry w \/ l = (target, identifier, fn)) /\
    (NoDup (registry w) -> NoDup (registry w')).
Proof.
  unfold event_listen. cbv zeta. destruct (decide _) as [Hin|Hout].
  - exists w. repeat split; auto. intros [?| ->]; auto.
  - eexists. split; [reflexivity|]. simpl. repeat split.
    + rewrite elem_of_app, list_elem_of_singleton. tauto.
    + rewrite elem_of_app, list_elem_of_singleton. tauto.
    + intros Hnd. apply NoDup_app. repeat split; auto.
      * intros x Hx Hx'. apply list_elem_of_singleton in Hx'. subst. auto.
      * apply NoDup_singleton.
Qed.

Lemma event_remove_present target identifier fn w :
  (target, identifier, fn) ∈ registry w ->
  event_remove target identifier fn w =
  (inr tt, set_registry
             (filter (fun l' => l' ≠ (target, identifier, fn)) (registry w)) w).
Proof.
  intros H. unfold event_remove. cbv zeta.
  destruct (decide _); [reflexivity | contradiction].
Qed.

Lemma event_remove_absent target identifier fn w :
  (target, identifier, fn) ∉ registry w ->
  event_remove target identifier fn w = (inl InvalidRequestError, w).
Proof.
  intros H. unfold event_remove. cbv zeta.
  destruct (decide _); [contradiction | reflexivity].
Qed.

Lemma before_after_distinct self e self' e' :
  before_listener self e ≠ after_listener self' e'.
Proof. discriminate. Qed.

Lemma before_listener_inj self e self' e' :
  before_listener self e = before_listener self' e' -> self = self' /\ e = e'.
Proof. intros H. injection H. auto. Qed.

Lemma after_listener_inj self e self' e' :
  after_listener self e = after_listener self' e' -> self = self' /\ e = e'.
Proof. intros H. injection H. auto. Qed.

(** [register] never raises, touches only the registry, and adds exactly
    its two listeners. *)
Lemma register_spec self e w :
  exists w', register self e w = (inr tt, w') /\
    heap w' = heap w /\ clock w' = clock w /\
    (forall l, l ∈ registry w' <->
               l ∈ registry w \/ l = before_listener self e \/ l = after_listener self e) /\
    (NoDup (registry w) -> NoDup (registry w')).
Proof.
  unfold register, bind.
  destruct (event_listen_spec e before_cursor_execute (self, m_before_execute) w)
    as (w1 & -> & Hh1 & Hc1 & Hr1 & Hn1).
  destruct (event_listen_spec e after_cursor_execute (self, m_after_execute) w1)
    as (w2 & -> & Hh2 & Hc2 & Hr2 & Hn2).
  exists w2. repeat split; try congruence; auto.
  - intros Hl. apply Hr2 in Hl as [Hl| ->]; [apply Hr1 in Hl as [Hl| ->]|]; auto.
  - intros [Hl|[-> | ->]]; apply Hr2; auto; left; apply Hr1; auto.
Qed.

Lemma register_matched self e w :
  Forall matched (registry w) -> Forall matched (registry (snd (register self e w))).
Proof.
  intros H. destruct (register_spec self e w) as (w' & -> & _ & _ & Hr & _). simpl.
  rewrite Forall_forall in H |- *. intros l Hl. apply Hr in Hl as [Hl|[-> | ->]];
    simpl; auto.
Qed.

(** Installing hooks for a list of engines. *)
Lemma for_each_register self (l : list Engine) : forall w,
  exists w', for_each l (register self) w = (inr tt, w') /\
    heap w' = heap w /\ clock w' = clock w /\
    (forall x, x ∈ registry w' <->
               x ∈ registry w \/
               exists e, e ∈ l /\ (x = before_listener self e \/ x = after_listener self e)) /\
    (NoDup (registry w) -> NoDup (registry w')).
Proof.
  induction l as [|a l IH]; intros w; simpl.
  - exists w. unfold ret. repeat split; auto.
    intros [?|(e & He & _)]; auto. inversion He.
  - unfold bind. destruct (register_spec self a w) as (w1 & -> & Hh1 & Hc1 & Hr1 & Hn1).
    destruct (IH w1) as (w2 & -> & Hh2 & Hc2 & Hr2 & Hn2).
    exists w2. repeat split; try congruence; auto.
    + intros Hx. apply Hr2 in Hx as [Hx|(e & He & Hx)].
      * apply Hr1 in Hx as [Hx|Hx]; auto. right. exists a. split; [left | auto].
      * right. exists e. split; [right; auto | auto].
    + intros [Hx|(e & He & Hx)]; apply Hr2.
      * left. apply Hr1. auto.
      * apply elem_of_cons in He as [-> | He].
        -- left. apply Hr1. auto.
        -- right. eauto.
Qed.

(** [unregister] on an engine whose two listeners are registered removes
    exactly these two and does not raise. *)
Lemma unregister_hooked self e w :
  hooked self e (registry w) ->
  exists w', unregister self e w = (inr tt, w') /\
    heap w' = heap w /\ clock w' = clock w /\
    (forall x, x ∈ registry w' <->
               x ∈ registry w /\ x ≠ before_listener self e /\ x ≠ after_listener self e) /\
    (NoDup (registry w) -> NoDup (registry w')).
Proof.
  intros [Hb Ha]. unfold unregister, bind.
  rewrite event_remove_present by exact Hb.
  rewrite event_remove_present.
  2:{ simpl. apply list_elem_of_filter. split; [discriminate | exact Ha]. }
  eexists. split; [reflexivity|]. simpl. repeat split.
  - apply list_elem_of_filter in H as [_ H]. apply list_elem_of_filter in H as [_ H]. exact H.
  - apply list_elem_of_filter in H as [_ H]. apply list_elem_of_filter in H as [H _]. exact H.
  - apply list_elem_of_filter in H as [H _]. exact H.
  - intros (Hx & Hnb & Hna). apply list_elem_of_filter. split; [exact Hna|].
    apply list_elem_of_filter. split; [exact Hnb | exact Hx].
  - intros Hnd. apply NoDup_filter, NoDup_filter, Hnd.
Qed.

(** [unregister] on an engine whose before listener is not registered
    raises at the first [event.remove] and changes nothing. *)
Lemma unregister_not_hooked self e w :
  before_listener self e ∉ registry w ->
  unregister self e w = (inl InvalidRequestError, w).
Proof.
  intros H. unfold unregister, bind. rewrite event_remove_absent by exact H.
  reflexivity.
Qed.

(** Removing the hooks of a list of distinct engines, all installed. *)
Lemma for_each_unregister self (l : list Engine) : forall w,
  NoDup l ->
  (forall e, e ∈ l -> hooked self e (registry w)) ->
  exists w', for_each l (unregister self) w = (inr tt, w') /\
    heap w' = heap w /\ clock w' = clock w /\
    (forall x, x ∈ registry w' <->
               x ∈ registry w /\
               forall e, e ∈ l -> x ≠ before_listener self e /\ x ≠ after_listener self e) /\
    (NoDup (registry w) -> NoDup (registry w')).
Proof.
  induction l as [|a l IH]; intros w Hnd Hall; simpl.
  - exists w. unfold ret. repeat split; auto; try tauto.
    all: match goal with He : _ ∈ [] |- _ => inversion He end.
  - apply NoDup_cons in Hnd as [Hnotin Hnd]. unfold bind.
    destruct (unregister_hooked self a w) as (w1 & -> & Hh1 & Hc1 & Hr1 & Hn1).
    { apply Hall. left. }
    destruct (IH w1 Hnd) as (w2 & -> & Hh2 & Hc2 & Hr2 & Hn2).
    { intros e He. destruct (Hall e) as [Hb Ha]; [right; exact He|].
      assert (e ≠ a) by (intros ->; contradiction).
      split; apply Hr1; repeat split; auto; try discriminate.
      - intros Heq. apply before_listener_inj in Heq as [_ ?]. contradiction.
      - intros Heq. apply after_listener_inj in Heq as [_ ?]. contradiction. }
    exists w2. split; [reflexivity|]. split; [congruence|]. split; [congruence|].
    split; [|auto].
    intros x. rewrite Hr2, Hr1. split.
    + intros ((Hx & Hb & Ha) & Hrest). split; [exact Hx|].
      intros e0 He0. apply elem_of_cons in He0 as [-> | He0]; auto.
    + intros (Hx & Hrest).
      split; [split; [exact Hx | apply (Hrest a); left] |].
      intros e0 He0. apply Hrest. right. exact He0.
Qed.

Lemma event_remove_heap target identifier fn w :
  heap (snd (event_remove target identifier fn w)) = heap w /\
  clock (snd (event_remove target identifier fn w)) = clock w.
Proof. unfold event_remove. cbv zeta. destruct (decide _); split; reflexivity. Qed.

Lemma unregister_heap self e w :
  heap (snd (unregister self e w)) = heap w /\
  clock (snd (unregister self e w)) = clock w.
Proof.
  unfold unregister, bind.
  pose proof (event_remove_heap e before_cursor_execute (self, m_before_execute) w) as [H1 H1'].
  destruct (event_remove e before_cursor_execute (self, m_before_execute) w)
    as [[x|[]] w1]; simpl in *; [auto|].
  pose proof (event_remove_heap e after_cursor_execute (self, m_after_execute) w1) as [H2 H2'].
  destruct (event_remove e after_cursor_execute (self, m_after_execute) w1)
    as [[x|[]] w2]; simpl in *; split; congruence.
Qed.

(** [unregister] on an engine that lacks one of the two listeners raises;
    no listener other than the engine's own before listener is touched. *)
Lemma unregister_unhooked self e w :
  ~ hooked self e (registry w) ->
  exists w', unregister self e w = (inl InvalidRequestError, w') /\
    heap w' = heap w /\ clock w' = clock w /\
    (forall x, x ≠ before_listener self e -> (x ∈ registry w' <-> x ∈ registry w)).
Proof.
  intros Hno. destruct (decide (before_listener self e ∈ registry w)) as [Hb|Hb].
  - assert (Ha : after_listener self e ∉ registry w) by (intros Ha; apply Hno; split; auto).
    unfold unregister, bind. rewrite event_remove_present by exact Hb.
    rewrite event_remove_absent.
    2:{ simpl. rewrite list_elem_of_filter. tauto. }
    eexists. split; [reflexivity|]. simpl. repeat split; auto.
    + intros Hx. apply list_elem_of_filter in Hx. tauto.
    + intros Hx. apply list_elem_of_filter. split; auto.
  - rewrite unregister_not_hooked by exact Hb. exists w. repeat split; auto.
Qed.

(** ** The two loops of [process_request] *)

Lemma process_request_blocks super self request w :
  process_request super self request w =
  (add_engines self request ;;
   install_hooks self ;;
   try_finally (super self request) (remove_hooks self)) w.
Proof.
  unfold process_request, install_hooks, remove_hooks, bind, get_panel.
  destruct (add_engines self request w) as [[e|[]] w1]; [reflexivity|].
  destruct (for_each _ (register self) w1) as [[e|[]] w2]; reflexivity.
Qed.

Lemma install_hooks_spec self w :
  exists w', install_hooks self w = (inr tt, w') /\
    heap w' = heap w /\ clock w' = clock w /\
    (forall x, x ∈ registry w' <->
               x ∈ registry w \/
               exists e, e ∈ engines (panel_of w self) /\
                         (x = before_listener self e \/ x = after_listener self e)) /\
    (NoDup (registry w) -> NoDup (registry w')).
Proof.
  unfold install_hooks, bind, get_panel.
  destruct (for_each_register self (elements (engines (panel_of w self))) w)
    as (w' & -> & Hh & Hc & Hr & Hn).
  exists w'. repeat split; auto.
  - intros Hx. apply Hr in Hx as [Hx|(e & He & Hx)]; auto.
    right. exists e. split; [apply elem_of_elements, He | exact Hx].
  - intros [Hx|(e & He & Hx)]; apply Hr; auto.
    right. exists e. split; [apply elem_of_elements, He | exact Hx].
Qed.

Lemma install_hooks_hooked self w e :
  e ∈ engines (panel_of w self) ->
  hooked self e (registry (snd (install_hooks self w))).
Proof.
  intros He. destruct (install_hooks_spec self w) as (w' & -> & _ & _ & Hr & _).
  simpl. split; apply Hr; right; exists e; auto.
Qed.

(** Registries built by [register] and cut down by [unregister] stay
    well formed. *)
Lemma install_hooks_wf self w :
  wf_registry (registry w) -> wf_registry (registry (snd (install_hooks self w))).
Proof.
  intros [Hnd Hm]. destruct (install_hooks_spec self w) as (w' & -> & _ & _ & Hr & Hn).
  simpl. split; [auto|]. rewrite Forall_forall in Hm |- *.
  intros x Hx. apply Hr in Hx as [Hx|(e & _ & [-> | ->])]; simpl; auto.
Qed.

Lemma unregister_wf self e w :
  wf_registry (registry w) -> wf_registry (registry (snd (unregister self e w))).
Proof.
  intros [Hnd Hm].
  destruct (decide (hooked self e (registry w))) as [Hk|Hk].
  - destruct (unregister_hooked self e w Hk) as (w' & -> & _ & _ & Hr & Hn).
    simpl. split; [auto|]. rewrite Forall_forall in Hm |- *.
    intros x Hx. apply Hr in Hx as [Hx _]. auto.
  - destruct (decide (before_listener self e ∈ registry w)) as [Hb|Hb].
    + unfold unregister, bind. rewrite event_remove_present by exact Hb.
      rewrite event_remove_absent.
      * simpl. split; [apply NoDup_filter, Hnd|].
        rewrite Forall_forall in Hm |- *. intros x Hx.
        apply list_elem_of_filter in Hx as [_ Hx]. auto.
      * simpl. rewrite list_elem_of_filter. intros [_ Ha]. apply Hk. split; auto.
    + rewrite unregister_not_hooked by exact Hb. split; auto.
Qed.


(** The loop leaves at the first engine that lacks a listener: engines
    before it lose their hooks, engines after it are not visited. *)
Lemma for_each_unregister_stops self (l1 l2 : list Engine) (e : Engine) w :
  NoDup (l1 ++ e :: l2) ->
  (forall x, x ∈ l1 -> hooked self x (registry w)) ->
  ~ hooked self e (registry w) ->
  exists w', for_each (l1 ++ e :: l2) (unregister self) w = (inl InvalidRequestError, w') /\
    heap w' = heap w /\ clock w' = clock w /\
    (forall x, x ∈ l1 ->
               (before_listener self x ∉ registry w') /\
               (after_listener self x ∉ registry w')) /\
    (forall x, x ∈ l2 ->
               (before_listener self x ∈ registry w' <-> before_listener self x ∈ registry w) /\
               (after_listener self x ∈ registry w' <-> after_listener self x ∈ registry w)).
Proof.
  intros Hnd Hl1 He.
  apply NoDup_app in Hnd as (Hnd1 & Hdisj & Hnd2).
  apply NoDup_cons in Hnd2 as [Hel2 Hnd2].
  rewrite for_each_app.
  destruct (for_each_unregister self l1 w Hnd1 Hl1) as (w1 & -> & Hh1 & Hc1 & Hr1 & _).
  simpl. unfold bind.
  destruct (unregister_unhooked self e w1) as (w2 & -> & Hh2 & Hc2 & Hr2).
  { intros [Hb Ha]. apply He. split; [apply Hr1 in Hb | apply Hr1 in Ha]; tauto. }
  exists w2. split; [reflexivity|]. split; [congruence|]. split; [congruence|]. split.
  - intros x Hx.
    assert (x ≠ e) by (intros ->; apply (Hdisj e Hx); left).
    split; intros Hin; apply Hr2 in Hin; try discriminate.
    + apply Hr1 in Hin as [_ Hin]. destruct (Hin x Hx) as [Hn _]. apply Hn. reflexivity.
    + intros Heq. apply before_listener_inj in Heq as [_ ?]. contradiction.
    + apply Hr1 in Hin as [_ Hin]. destruct (Hin x Hx) as [_ Hn]. apply Hn. reflexivity.
  - intros x Hx.
    assert (x ≠ e) by (intros ->; contradiction).
    assert (Hfar : forall y, y ∈ l1 -> x ≠ y).
    { intros y Hy ->. apply (Hdisj y Hy). right. exact Hx. }
    split; rewrite Hr2, Hr1; try discriminate.
    + split; [tauto|]. intros Hin. split; [exact Hin|]. intros y Hy.
      split; [|discriminate]. intros Heq. apply before_listener_inj in Heq as [_ ?].
      exact (Hfar y Hy H0).
    + intros Heq. apply before_listener_inj in Heq as [_ ?]. contradiction.
    + split; [tauto|]. intros Hin. split; [exact Hin|]. intros y Hy.
      split; [discriminate|]. intros Heq. apply after_listener_inj in Heq as [_ ?].
      exact (Hfar y Hy H0).
Qed.

(** ** Cleanup *)




(** C2 (as amended). [unregister] never alters the query log (nor any
    panel state). On an engine whose two listeners are registered it
    removes them without raising, and a second [unregister] then raises
    [InvalidRequestError]; on an engine that was never registered, or
    already unregistered, it raises [InvalidRequestError] and leaves the
    world as it was. It is not idempotent. *)
Theorem unregister_outcomes (self : PanelId) (e : Engine) (w : World) :
  heap (snd (unregister self e w)) = heap w /\
  (hooked self e (registry w) ->
   fst (unregister self e w) = inr tt /\
   (before_listener self e ∉ registry (snd (unregister self e w))) /\
   (after_listener self e ∉ registry (snd (unregister self e w))) /\
   fst (unregister self e (snd (unregister self e w))) = inl InvalidRequestError) /\
  (before_listener self e ∉ registry w ->
   unregister self e w = (inl InvalidRequestError, w)).
Proof.
  split; [apply unregister_heap|]. split; [|apply unregister_not_hooked].
  intros Hk. destruct (unregister_hooked self e w Hk) as (w' & -> & _ & _ & Hr & _).
  simpl. assert (Hb : before_listener self e ∉ registry w').
  { intros Hin. apply Hr in Hin. tauto. }
  repeat split; auto.
  - intros Hin. apply Hr in Hin. tauto.
  - rewrite unregister_not_hooked by exact Hb. reflexivity.
Qed.

Lemma unregister_outcomes_witness :
  fst (unregister panel_a engine_app world_app_instrumented) = inr tt /\
  fst (unregister panel_a engine_app world0) = inl InvalidRequestError.
Proof.
  destruct (unregister_outcomes panel_a engine_app world_app_instrumented)
    as (_ & Hreg & _).
  destruct (unregister_outcomes panel_a engine_app world0) as (_ & _ & Hnot).
  split.
  - apply Hreg. split; vm_compute; repeat constructor.
  - rewrite Hnot; [reflexivity|]. vm_compute. intros Hin. inversion Hin.
Defined.

(** C2, the claim as stated, fails: [unregister] on an engine that was
    never registered raises, and so does a second [unregister] after a
    first one that went through. *)
Lemma unregister_unknown_engine_raises :
  fst (unregister panel_a engine_app world0) = inl InvalidRequestError /\
  fst ((register panel_a engine_app ;;
        unregister panel_a engine_app ;;
        unregister panel_a engine_app) world0) = inl InvalidRequestError.
Proof. vm_compute. split; reflexivity. Qed.

(** C3 (as amended). The cleanup visits the engines of the set in
    iteration order and leaves at the first engine whose [unregister]
    raises: [process_request] raises [InvalidRequestError], the engines
    before that one have lost their hooks, and for the engines after it
    no uninstall is attempted, their listeners are in the registry
    exactly as the delegated processing left them. *)
Theorem cleanup_stops_at_first_failure
    (super : PanelId -> Request -> M Response) (self : PanelId)
    (request : Request) (w w1 w2 w3 : World) (r : Result Response)
    (l1 l2 : list Engine) (e : Engine) :
  add_engines self request w = (inr tt, w1) ->
  install_hooks self w1 = (inr tt, w2) ->
  super self request w2 = (r, w3) ->
  elements (engines (panel_of w3 self)) = (l1 ++ e :: l2)%list ->
  (forall x, x ∈ l1 -> hooked self x (registry w3)) ->
  ~ hooked self e (registry w3) ->
  exists w4, process_request super self request w = (inl InvalidRequestError, w4) /\
    (forall x, x ∈ l1 ->
               (before_listener self x ∉ registry w4) /\
               (after_listener self x ∉ registry w4)) /\
    (forall x, x ∈ l2 ->
               (before_listener self x ∈ registry w4 <-> before_listener self x ∈ registry w3) /\
               (after_listener self x ∈ registry w4 <-> after_listener self x ∈ registry w3)).
Proof.
  intros Hadd Hinst Hsuper Hel Hl1 He.
  destruct (for_each_unregister_stops self l1 l2 e w3) as (w4 & Hloop & _ & _ & H1 & H2);
    auto.
  { rewrite <- Hel. apply NoDup_elements. }
  exists w4. rewrite process_request_blocks.
  unfold bind, try_finally, remove_hooks, get_panel.
  rewrite Hadd, Hinst, Hsuper. unfold bind. rewrite Hel, Hloop. auto.
Qed.

Lemma cleanup_stops_at_first_failure_witness :
  exists w4,
    process_request handler_unregisters_app panel_a request_sharded world0
      = (inl InvalidRequestError, w4) /\
    (forall x, x ∈ @nil Engine ->
               (before_listener panel_a x ∉ registry w4) /\
               (after_listener panel_a x ∉ registry w4)) /\
    (forall x, x ∈ [engine_shard] ->
               (before_listener panel_a x ∈ registry w4 <->
                before_listener panel_a x ∈ registry world_sharded_after_handler) /\
               (after_listener panel_a x ∈ registry w4 <->
                after_listener panel_a x ∈ registry world_sharded_after_handler)).
Proof.
  apply (cleanup_stops_at_first_failure handler_unregisters_app panel_a
           request_sharded world0
           (snd (add_engines panel_a request_sharded world0))
           world_sharded_instrumented world_sharded_after_handler
           (inr {| status_code := 200 |}) [] [engine_shard] engine_app).
  - vm_compute. reflexivity.
  - vm_compute. reflexivity.
  - vm_compute. reflexivity.
  - vm_compute. reflexivity.
  - intros x Hx. inversion Hx.
  - intros [Hb _]. apply list_elem_of_In in Hb. vm_compute in Hb.
    destruct Hb as [Hb|[Hb|[]]]; discriminate Hb.
Defined.

(** C3, the claim as stated, fails: the set holds two engines, the
    handler called [unregister] on the first and returned a response.
    The cleanup raises at the first engine, and the hooks of the second
    engine, installed and never removed by anyone, are still there. *)
Lemma cleanup_skips_engines_after_failure :
  let w1 := snd (add_engines panel_a request_sharded world0) in
  let w2 := snd (install_hooks panel_a w1) in
  let w3 := snd (handler_unregisters_app panel_a request_sharded w2) in
  let outcome := process_request handler_unregisters_app panel_a request_sharded world0 in
  elements (engines (panel_of w3 panel_a)) = [engine_app; engine_shard] /\
  fst (handler_unregisters_app panel_a request_sharded w2) = inr {| status_code := 200 |} /\
  registry w3 = [before_listener panel_a engine_shard; after_listener panel_a engine_shard] /\
  fst outcome = inl InvalidRequestError /\
  registry (snd outcome)
    = [before_listener panel_a engine_shard; after_listener panel_a engine_shard].
Proof. vm_compute. repeat split. Qed.

(** ** Engine discovery *)

Lemma only_adds_engines_refl self w : only_adds_engines self w w.
Proof. unfold only_adds_engines. repeat split; auto. Qed.

Lemma only_adds_engines_trans self w1 w2 w3 :
  only_adds_engines self w1 w2 -> only_adds_engines self w2 w3 ->
  only_adds_engines self w1 w3.
Proof.
  intros (Hr1 & Hc1 & Ho1 & Hq1 & He1) (Hr2 & Hc2 & Ho2 & Hq2 & He2).
  unfold only_adds_engines. repeat split; try congruence.
  - intros p Hp. rewrite Ho2, Ho1; auto.
  - set_solver.
Qed.

Lemma panel_of_set_panel_eq self p w : panel_of (set_panel self p w) self = p.
Proof. unfold panel_of, set_panel. simpl. rewrite lookup_insert_eq. reflexivity. Qed.

Lemma panel_of_set_panel_ne self p' p w :
  p' ≠ self -> panel_of (set_panel self p w) p' = panel_of w p'.
Proof.
  intros H. unfold panel_of, set_panel. simpl. rewrite lookup_insert_ne; auto.
Qed.

Lemma engines_add_spec self e w :
  exists w', engines_add self e w = (inr tt, w') /\
    only_adds_engines self w w' /\
    engines (panel_of w' self) = engines (panel_of w self) ∪ {[ e ]}.
Proof.
  unfold engines_add, bind, get_panel, put_panel. eexists. split; [reflexivity|].
  rewrite panel_of_set_panel_eq. simpl. split; [|reflexivity].
  unfold only_adds_engines. rewrite panel_of_set_panel_eq. simpl.
  repeat split; auto.
  - intros p Hp. apply panel_of_set_panel_ne, Hp.
  - set_solver.
Qed.

Lemma add_bind_to_engines_spec self b w :
  exists w', add_bind_to_engines self b w = (inr tt, w') /\
    only_adds_engines self w w' /\
    engines (panel_of w' self) = engines (panel_of w self) ∪ {[ bind_engine b ]}.
Proof. destruct b; simpl; apply engines_add_spec. Qed.

(** Adding the binds of a session never raises and adds the engine of
    each bind. *)
Lemma add_binds_spec self (bs : list Bind) : forall w,
  exists w', for_each bs (add_bind_to_engines self) w = (inr tt, w') /\
    only_adds_engines self w w' /\
    engines (panel_of w' self)
      = engines (panel_of w self) ∪ list_to_set (bind_engine <$> bs).
Proof.
  induction bs as [|b bs IH]; intros w; simpl.
  - exists w. unfold ret. split; [reflexivity|].
    split; [apply only_adds_engines_refl | set_solver].
  - unfold bind. destruct (add_bind_to_engines_spec self b w) as (w1 & -> & Ho1 & He1).
    destruct (IH w1) as (w2 & -> & Ho2 & He2).
    exists w2. split; [reflexivity|].
    split; [eapply only_adds_engines_trans; eauto|].
    rewrite He2, He1. set_solver.
Qed.

Lemma inspect_value_only_adds self v w :
  only_adds_engines self w (snd (inspect_value self v w)).
Proof.
  unfold inspect_value. destruct (as_session v) as [s|].
  2:{ apply only_adds_engines_refl. }
  destruct (_Session__binds s) as [[|b bs]|].
  - unfold bind, call_get_bind. destruct (get_bind s) as [e|b]; simpl.
    + apply only_adds_engines_refl.
    + destruct (add_bind_to_engines_spec self b w) as (w' & -> & H & _). exact H.
  - destruct (add_binds_spec self (snd <$> (b :: bs)) w) as (w' & Hw' & H & _).
    change (map snd (b :: bs)) with (snd <$> (b :: bs)). rewrite Hw'. exact H.
  - unfold bind, call_get_bind. destruct (get_bind s) as [e|b]; simpl.
    + apply only_adds_engines_refl.
    + destruct (add_bind_to_engines_spec self b w) as (w' & -> & H & _). exact H.
Qed.

(** Discovery, however it ends, only adds engines to the panel's set. *)
Lemma add_engines_only_adds self request w :
  only_adds_engines self w (snd (add_engines self request w)).
Proof.
  unfold add_engines, bind, getitem_route.
  destruct (route request) as [r|]; simpl; [|apply only_adds_engines_refl].
  destruct (dependant r) as [d|]; [|apply only_adds_engines_refl].
  unfold try_except_HTTPException, solve_dependencies.
  destruct d as [[]|values]; simpl; try apply only_adds_engines_refl.
  apply for_each_invariant.
  - apply only_adds_engines_refl.
  - apply only_adds_engines_trans.
  - apply inspect_value_only_adds.
Qed.

(** A session bound to several engines: inspecting it never raises and
    puts every bound engine in the set. *)
Lemma inspect_value_sharded self v s b bs w :
  as_session v = Some s -> _Session__binds s = Some (b :: bs) ->
  fst (inspect_value self v w) = inr tt /\
  forall x, x ∈ b :: bs ->
            bind_engine (snd x) ∈ engines (panel_of (snd (inspect_value self v w)) self).
Proof.
  intros Hs Hb. unfold inspect_value. rewrite Hs, Hb.
  destruct (add_binds_spec self (snd <$> (b :: bs)) w) as (w' & Hw' & _ & He).
  change (map snd (b :: bs)) with (snd <$> (b :: bs)). rewrite Hw'. simpl.
  split; [reflexivity|]. intros x Hx. rewrite He.
  apply elem_of_union_r, elem_of_list_to_set.
  change (bind_engine (snd x)) with ((bind_engine ∘ snd) x).
  rewrite <- list_fmap_compose. apply list_elem_of_fmap_2, Hx.
Qed.

(** When the loop over the values ends normally, every value was
    inspected, at some world between the first and the last. *)
Lemma for_each_inspect_ok self (vs : list Value) : forall w w',
  for_each vs (inspect_value self) w = (inr tt, w') ->
  forall v, v ∈ vs ->
  exists wi, fst (inspect_value self v wi) = inr tt /\
             only_adds_engines self (snd (inspect_value self v wi)) w'.
Proof.
  induction vs as [|a vs IH]; intros w w' Hrun v Hv; [inversion Hv|].
  simpl in Hrun. unfold bind in Hrun.
  destruct (inspect_value self a w) as [[e|[]] w1] eqn:Ha; [discriminate Hrun|].
  apply elem_of_cons in Hv as [-> | Hv].
  - exists w. rewrite Ha. simpl. split; [reflexivity|].
    replace w' with (snd (for_each vs (inspect_value self) w1)) by (rewrite Hrun; reflexivity).
    apply for_each_invariant.
    + apply only_adds_engines_refl.
    + apply only_adds_engines_trans.
    + apply inspect_value_only_adds.
  - eapply IH; eauto.
Qed.

(** C5. When re-resolving the dependency graph raises [HTTPException],
    discovery swallows it: it returns normally and leaves the engine set
    (and the rest of the world) as it was, and [process_request] goes on
    to install hooks and delegate as usual, so this failure is never the
    outcome of the request. *)
Theorem discovery_swallows_HTTPException
    (super : PanelId -> Request -> M Response) (self : PanelId)
    (request : Request) (r : Route) (code : nat) (w : World) :
  route request = Some r ->
  dependant r = Some (inl (HTTPException code)) ->
  add_engines self request w = (inr tt, w) /\
  process_request super self request w =
  (install_hooks self ;; try_finally (super self request) (remove_hooks self)) w.
Proof.
  intros Hr Hd.
  assert (Hadd : add_engines self request w = (inr tt, w)).
  { unfold add_engines, bind, getitem_route. rewrite Hr. simpl. rewrite Hd.
    reflexivity. }
  split; [exact Hadd|]. rewrite process_request_blocks. unfold bind at 1.
  rewrite Hadd. reflexivity.
Qed.

Lemma discovery_swallows_HTTPException_witness :
  add_engines panel_a request_unauthorized world0 = (inr tt, world0) /\
  process_request handler_ok panel_a request_unauthorized world0 =
  (install_hooks panel_a ;;
   try_finally (handler_ok panel_a request_unauthorized) (remove_hooks panel_a)) world0.
Proof.
  apply (discovery_swallows_HTTPException handler_ok panel_a request_unauthorized
           {| dependant := Some (inl (HTTPException 401)) |} 401 world0);
    reflexivity.
Defined.

(** C4 (as amended). Discovery has no isolation per dependency value:
    when inspecting a value raises (here [get_bind()] of a session
    without a table of binds), the exception leaves [add_engines], the
    values after it are not inspected, and the engines added before it
    stay. An exception of [solve_dependencies] other than
    [HTTPException] leaves [add_engines] as well. *)
Theorem discovery_propagates_other_errors (self : PanelId) (request : Request)
    (r : Route) (w : World) :
  route request = Some r ->
  (forall (vs1 vs2 : list (string * Value)) (name : string) (v : Value)
          (s : Session) (exn : Exn) (w1 : World),
     dependant r = Some (inr (vs1 ++ (name, v) :: vs2)%list) ->
     for_each (map snd vs1) (inspect_value self) w = (inr tt, w1) ->
     as_session v = Some s ->
     _Session__binds s = None \/ _Session__binds s = Some [] ->
     get_bind s = inl exn ->
     add_engines self request w = (inl exn, w1)) /\
  (forall exn : Exn,
     dependant r = Some (inl exn) ->
     (forall code, exn ≠ HTTPException code) ->
     add_engines self request w = (inl exn, w)).
Proof.
  intros Hr. split.
  - intros vs1 vs2 name v s exn w1 Hd Hvs1 Hs Hb Hg.
    unfold add_engines, bind, getitem_route. rewrite Hr. simpl. rewrite Hd.
    unfold try_except_HTTPException, solve_dependencies.
    rewrite map_app, for_each_app, Hvs1. simpl. unfold bind.
    unfold inspect_value. rewrite Hs. destruct Hb as [-> | ->];
      unfold bind, call_get_bind; rewrite Hg; reflexivity.
  - intros exn Hd Hne.
    unfold add_engines, bind, getitem_route. rewrite Hr. simpl. rewrite Hd.
    unfold try_except_HTTPException, solve_dependencies.
    destruct exn; try reflexivity. exfalso. eapply Hne. reflexivity.
Qed.

Lemma discovery_propagates_other_errors_witness :
  add_engines panel_a request_unbound_first world0
    = (inl (OtherError "UnboundExecutionError"), world0).
Proof.
  refine (proj1 (discovery_propagates_other_errors panel_a request_unbound_first
                   {| dependant := Some (inr [("audit", SessionValue session_unbound);
                                              ("db", SessionValue session_app)]) |}
                   world0 _)
                [] [("db", SessionValue session_app)] "audit"
                (SessionValue session_unbound) session_unbound
                (OtherError "UnboundExecutionError") world0 _ _ _ _ _);
    try reflexivity.
  left. reflexivity.
Defined.

(** C4, the claim as stated, fails: the first resolved value is a session
    whose [get_bind()] raises; the exception leaves discovery and the
    second value, a session bound to an engine, is never inspected: the
    engine set stays empty. *)
Lemma discovery_aborts_on_first_error :
  fst (add_engines panel_a request_unbound_first world0)
    = inl (OtherError "UnboundExecutionError") /\
  elements (engines (panel_of (snd (add_engines panel_a request_unbound_first world0))
                              panel_a)) = [] /\
  elements (engines (panel_of (snd (add_engines panel_a request_app world0)) panel_a))
    = [engine_app].
Proof. vm_compute. repeat split. Qed.

(** C6 (as amended). The engine set holds each engine at most once,
    whatever the world. When discovery returns normally, every engine
    of the table of binds of a resolved session, plain or wrapped in an
    async session, is in the set, exactly once, however many entries
    and values refer to it. *)
Theorem engine_set_has_each_engine_once (self : PanelId) (request : Request)
    (r : Route) (values : list (string * Value)) (w w' : World) :
  route request = Some r ->
  dependant r = Some (inr values) ->
  add_engines self request w = (inr tt, w') ->
  (forall e, count_occ Engine_eq_dec (elements (engines (panel_of w' self))) e <= 1) /\
  (forall name v s b bs x,
     (name, v) ∈ values -> as_session v = Some s ->
     _Session__binds s = Some (b :: bs) -> x ∈ b :: bs ->
     count_occ Engine_eq_dec (elements (engines (panel_of w' self)))
               (bind_engine (snd x)) = 1).
Proof.
  intros Hr Hd Hadd.
  assert (Hnd : forall e,
             count_occ Engine_eq_dec (elements (engines (panel_of w' self))) e <= 1).
  { apply NoDup_count_occ, NoDup_ListNoDup, NoDup_elements. }
  split; [exact Hnd|].
  intros name v s b bs x Hv Hs Hb Hx.
  unfold add_engines, bind, getitem_route in Hadd. rewrite Hr in Hadd. simpl in Hadd.
  rewrite Hd in Hadd. unfold try_except_HTTPException, solve_dependencies in Hadd.
  destruct (for_each_inspect_ok self (map snd values) w w' Hadd v) as (wi & _ & Hgrow).
  { change v with (snd (name, v)). apply list_elem_of_fmap_2, Hv. }
  destruct (inspect_value_sharded self v s b bs wi Hs Hb) as [_ Hin].
  assert (He : bind_engine (snd x) ∈ engines (panel_of w' self)).
  { destruct Hgrow as (_ & _ & _ & _ & Hsub). apply Hsub, Hin, Hx. }
  apply elem_of_elements, list_elem_of_In in He.
  apply (count_occ_In Engine_eq_dec) in He.
  specialize (Hnd (bind_engine (snd x))). lia.
Qed.

Lemma engine_set_has_each_engine_once_witness :
  count_occ Engine_eq_dec
    (elements (engines (panel_of (snd (add_engines panel_a request_sharded world0))
                                 panel_a)))
    engine_app = 1.
Proof.
  refine (proj2 (engine_set_has_each_engine_once panel_a request_sharded
                   {| dependant := Some (inr [("db", SessionValue session_sharded);
                                              ("adb", AsyncSessionValue (Some session_sharded))]) |}
                   _ world0 _ _ _ _)
                "adb" (AsyncSessionValue (Some session_sharded)) session_sharded
                ("User", BindEngine engine_app)
                [("Order", BindConnection engine_shard); ("Item", BindEngine engine_app)]
                ("Item", BindEngine engine_app) _ _ _ _).
  - reflexivity.
  - reflexivity.
  - vm_compute. reflexivity.
  - right. left.
  - reflexivity.
  - reflexivity.
  - right. right. left.
Defined.

(** C6, the claim as stated, fails: the resolved session is bound to
    two engines, [engine_app] by default and [engine_shard] through its
    table of binds. The table is not empty, so only its entries are
    read: discovery returns normally with [engine_shard] alone in the
    set, and [engine_app], which [get_bind()] returns, is not in it. *)
Lemma default_bind_of_sharded_session_not_added :
  let outcome :=
    add_engines panel_a (request_of [("db", SessionValue session_default_and_table)])
      world0 in
  fst outcome = inr tt /\
  get_bind session_default_and_table = inr (BindEngine engine_app) /\
  elements (engines (panel_of (snd outcome) panel_a)) = [engine_shard] /\
  count_occ Engine_eq_dec (elements (engines (panel_of (snd outcome) panel_a)))
            engine_app = 0.
Proof. vm_compute. repeat split. Qed.

(** ** Growth of the engine set *)



Section Growth.

Variable super : PanelId -> Request -> M Response.
Variable self : PanelId.

(** The rest of the pipeline does not take engines out of the panel's
    set, which only the panel's own methods write. *)
Hypothesis super_keeps_engines : forall request w,
  engines (panel_of w self)
    ⊆ engines (panel_of (snd (super self request w)) self).




End Growth.


(** ** The callbacks *)

Lemma before_execute_spec self context w :
  before_execute self context w = (inr (started_at (clock w) context), w).
Proof. reflexivity. Qed.

Lemma after_execute_started self context start w :
  _start_time context = Some start ->
  after_execute self context w =
  (inr tt,
   set_panel self
     {| engines := engines (panel_of w self);
        _queries := _queries (panel_of w self)
                      ++ [(url (engine context), timed_query start (clock w) context)] |}
     w).
Proof.
  intros H. unfold after_execute, bind, perf_counter. rewrite H. reflexivity.
Qed.

Lemma after_execute_not_started self context w :
  _start_time context = None ->
  after_execute self context w = (inl (AttributeError "_start_time"), w).
Proof.
  intros H. unfold after_execute, bind, perf_counter. rewrite H. reflexivity.
Qed.

Lemma matched_before target p m :
  matched (target, before_cursor_execute, (p, m)) -> m = m_before_execute.
Proof. destruct m; simpl; [reflexivity | contradiction]. Qed.

Lemma matched_after target p m :
  matched (target, after_cursor_execute, (p, m)) -> m = m_after_execute.
Proof. destruct m; simpl; [contradiction | reflexivity]. Qed.

(** The before event: every listener on the engine stamps the context
    with the same clock reading; the world does not change. *)
Lemma dispatch_before_spec (ls : list Listener) :
  Forall matched ls ->
  forall context w,
  exists context', dispatch ls before_cursor_execute context w = (inr context', w) /\
    engine context' = engine context /\
    statement context' = statement context /\
    parameters context' = parameters context /\
    (_start_time context' = Some (clock w) \/ context' = context) /\
    ((exists p, before_listener p (engine context) ∈ ls) ->
     _start_time context' = Some (clock w)).
Proof.
  induction 1 as [|[[target id] [p m]] ls Hm Hls IH]; intros context w; simpl.
  - exists context. unfold ret. repeat split; auto.
    intros [p Hp]. inversion Hp.
  - destruct (decide (target = engine context ∧ id = before_cursor_execute))
      as [[-> ->]|Hno].
    + apply matched_before in Hm as ->. unfold bind. cbn [call_listener].
      rewrite before_execute_spec.
      destruct (IH (started_at (clock w) context) w)
        as (c' & -> & He & Hs & Hp & Hst & _).
      exists c'. split; [reflexivity|]. simpl in *.
      assert (Hstamp : _start_time c' = Some (clock w)).
      { destruct Hst as [Hst| ->]; [exact Hst | reflexivity]. }
      repeat split; auto.
    + destruct (IH context w) as (c' & -> & He & Hs & Hp & Hst & Hex).
      exists c'. repeat split; auto.
      intros [q Hq]. apply Hex. exists q.
      apply elem_of_cons in Hq as [Hq|Hq]; [|exact Hq].
      exfalso. apply Hno. unfold before_listener in Hq.
      injection Hq as <- <- _ _. split; reflexivity.
Qed.

(** The after event, on a stamped context: every panel listening on the
    engine appends the timed query to its own log, once; nothing else
    changes. *)
Lemma dispatch_after_spec (ls : list Listener) :
  Forall matched ls -> NoDup ls ->
  forall context start w,
  _start_time context = Some start ->
  exists w', dispatch ls after_cursor_execute context w = (inr context, w') /\
    registry w' = registry w /\ clock w' = clock w /\
    forall p,
      engines (panel_of w' p) = engines (panel_of w p) /\
      _queries (panel_of w' p) =
      (_queries (panel_of w p) ++
       if decide (after_listener p (engine context) ∈ ls)
       then [(url (engine context), timed_query start (clock w) context)]
       else [])%list.
Proof.
  induction 1 as [|[[target id] [q m]] ls Hm Hls IH];
    intros Hnd context start w Hstart; simpl.
  - exists w. unfold ret. repeat split; auto.
    destruct (decide (after_listener p (engine context) ∈ [])) as [Hin|_];
      [inversion Hin|]. rewrite app_nil_r. reflexivity.
  - apply NoDup_cons in Hnd as [Hnotin Hnd].
    destruct (decide (target = engine context ∧ id = after_cursor_execute))
      as [[-> ->]|Hno].
    + apply matched_after in Hm as ->. unfold bind. cbn [call_listener].
      unfold bind, ret.
      rewrite (after_execute_started q context start w Hstart).
      match goal with |- context [dispatch ls _ _ ?w1] => set (wq := w1) end.
      destruct (IH Hnd context start wq Hstart) as (w' & -> & Hr & Hc & Hp).
      exists w'. split; [reflexivity|]. split; [exact Hr|]. split; [exact Hc|].
      intros p. destruct (Hp p) as [He Hq]. rewrite He, Hq. subst wq.
      change (clock (set_panel q _ w)) with (clock w).
      destruct (decide (p = q)) as [->|Hpq].
      * rewrite panel_of_set_panel_eq. simpl. split; [reflexivity|].
        rewrite (decide_False (P := after_listener q (engine context) ∈ ls))
          by exact Hnotin.
        rewrite decide_True by left.
        rewrite app_nil_r. reflexivity.
      * rewrite panel_of_set_panel_ne by exact Hpq. split; [reflexivity|].
        f_equal.
        destruct (decide (after_listener p (engine context) ∈ ls)) as [Hin|Hout].
        -- rewrite decide_True by (right; exact Hin). reflexivity.
        -- rewrite decide_False; [reflexivity|].
           intros Hin'. apply elem_of_cons in Hin' as [Heq|Hin']; [|contradiction].
           apply after_listener_inj in Heq as [? _]. contradiction.
    + destruct (IH Hnd context start w Hstart) as (w' & -> & Hr & Hc & Hp).
      exists w'. split; [reflexivity|]. split; [exact Hr|]. split; [exact Hc|].
      intros p. destruct (Hp p) as [He Hq]. rewrite He, Hq. split; [reflexivity|].
      f_equal.
      destruct (decide (after_listener p (engine context) ∈ ls)) as [Hin|Hout].
      * rewrite decide_True by (right; exact Hin). reflexivity.
      * rewrite decide_False; [reflexivity|].
        intros Hin'. apply elem_of_cons in Hin' as [Heq|Hin']; [|contradiction].
        apply Hno. unfold after_listener in Heq. injection Heq as <- <- _ _.
        split; reflexivity.
Qed.

(** One statement through an engine that has at least one before
    listener: every panel with an after listener on the engine gets one
    record, the other panels none. *)
Lemma cursor_execute_spec e stmt ps t w :
  wf_registry (registry w) ->
  (exists p, before_listener p e ∈ registry w) ->
  exists w', cursor_execute e stmt ps t w = (inr tt, w') /\
    registry w' = registry w /\ clock w' = t /\
    forall p,
      engines (panel_of w' p) = engines (panel_of w p) /\
      _queries (panel_of w' p) =
      (_queries (panel_of w p) ++
       if decide (after_listener p e ∈ registry w)
       then [(url e, {| duration := ((t - clock w) * 1000)%float;
                        sql := stmt; params := ps |})]
       else [])%list.
Proof.
  intros [Hnd Hm] Hbefore. unfold cursor_execute. cbv zeta.
  unfold bind, get_registry, run_until, ret.
  set (c0 := {| engine := e; statement := stmt; parameters := ps; _start_time := None |}).
  destruct (dispatch_before_spec (registry w) Hm c0 w)
    as (c1 & -> & He & Hs & Hp & _ & Hstamp).
  specialize (Hstamp Hbefore). simpl.
  destruct (dispatch_after_spec (registry w) Hm Hnd c1 (clock w) (set_clock t w) Hstamp)
    as (w' & -> & Hr & Hc & Hlog).
  exists w'. split; [reflexivity|]. split; [exact Hr|]. split; [exact Hc|].
  intros p. destruct (Hlog p) as [Hen Hq]. split; [exact Hen|].
  rewrite Hq. unfold timed_query. rewrite He, Hs, Hp. reflexivity.
Qed.

(** C7. [before_execute] records the clock reading in the execution
    context; [after_execute], on that context at a later reading [t],
    appends exactly one record to the panel's log, under the engine's
    URL, with the statement and the parameters of the context and the
    duration [(t - start) * 1000]. So a statement executed through an
    engine on which the panel's hook is installed extends the panel's
    log by exactly one such record, and, the clock being monotonic and
    its reading finite, the duration is not negative. *)
Theorem statement_produces_one_timed_query
    (self : PanelId) (e : Engine) (stmt : string) (ps : Parameters)
    (t : float) (w : World) :
  wf_registry (registry w) ->
  hooked self e (registry w) ->
  (clock w <=? t)%float = true ->
  is_finite t = true ->
  (forall context,
     before_execute self context w = (inr (started_at (clock w) context), w) /\
     exists w'',
       after_execute self (started_at (clock w) context) (set_clock t w) = (inr tt, w'') /\
       _queries (panel_of w'' self) =
       (_queries (panel_of w self)
        ++ [(url (engine context),
             {| duration := ((t - clock w) * 1000)%float;
                sql := statement context; params := parameters context |})])%list) /\
  exists w' q,
    cursor_execute e stmt ps t w = (inr tt, w') /\
    _queries (panel_of w' self) = (_queries (panel_of w self) ++ [(url e, q)])%list /\
    duration q = ((t - clock w) * 1000)%float /\
    (0 <=? duration q)%float = true /\
    sql q = stmt /\ params q = ps.
Proof.
  intros Hwf [Hb Ha] Hmono Hfin. split.
  - intros context. split; [reflexivity|].
    eexists. split.
    + apply (after_execute_started self (started_at (clock w) context) (clock w)).
      reflexivity.
    + rewrite panel_of_set_panel_eq. reflexivity.
  - destruct (cursor_execute_spec e stmt ps t w Hwf) as (w' & Hrun & _ & _ & Hlog).
    { exists self. exact Hb. }
    exists w'. eexists. split; [exact Hrun|].
    destruct (Hlog self) as [_ Hq]. rewrite decide_True in Hq by exact Ha.
    split; [exact Hq|]. simpl. repeat split.
    apply elapsed_ms_nonneg; assumption.
Qed.

Lemma statement_produces_one_timed_query_witness :
  exists w' q,
    cursor_execute engine_app "SELECT 1" [] 2.5%float world_app_instrumented
      = (inr tt, w') /\
    _queries (panel_of w' panel_a) =
    (_queries (panel_of world_app_instrumented panel_a)
     ++ [(url engine_app, q)])%list /\
    duration q = ((2.5 - clock world_app_instrumented) * 1000)%float /\
    (0 <=? duration q)%float = true /\
    sql q = "SELECT 1" /\ params q = [].
Proof.
  refine (proj2 (statement_produces_one_timed_query panel_a engine_app "SELECT 1" []
                   2.5%float world_app_instrumented _ _ _ _)).
  - split.
    + apply NoDup_ListNoDup. vm_compute. repeat constructor.
      * intros [H|[]]. discriminate H.
      * intros [].
    + vm_compute. repeat constructor.
  - split; vm_compute; repeat constructor.
  - vm_compute. reflexivity.
  - vm_compute. reflexivity.
Defined.

(** C8 (as amended). Hooks are attached to the shared engine, not to a
    request: while two panels both have their hook installed on an
    engine, one statement executed through it, by whichever request,
    appends the same record to both logs; only a panel without an after
    listener on the engine at that time records nothing. *)
Theorem shared_engine_logs_every_statement
    (a b : PanelId) (e : Engine) (stmt : string) (ps : Parameters)
    (t : float) (w : World) :
  wf_registry (registry w) ->
  hooked a e (registry w) ->
  hooked b e (registry w) ->
  exists w' q,
    cursor_execute e stmt ps t w = (inr tt, w') /\
    sql q = stmt /\ params q = ps /\
    _queries (panel_of w' a) = (_queries (panel_of w a) ++ [(url e, q)])%list /\
    _queries (panel_of w' b) = (_queries (panel_of w b) ++ [(url e, q)])%list /\
    forall c, after_listener c e ∉ registry w ->
              _queries (panel_of w' c) = _queries (panel_of w c).
Proof.
  intros Hwf [Hba Haa] [_ Hab].
  destruct (cursor_execute_spec e stmt ps t w Hwf) as (w' & Hrun & _ & _ & Hlog).
  { exists a. exact Hba. }
  exists w', {| duration := ((t - clock w) * 1000)%float; sql := stmt; params := ps |}.
  split; [exact Hrun|].
  split; [reflexivity|]. split; [reflexivity|]. split; [|split].
  - destruct (Hlog a) as [_ Hq]. rewrite decide_True in Hq by exact Haa. exact Hq.
  - destruct (Hlog b) as [_ Hq]. rewrite decide_True in Hq by exact Hab. exact Hq.
  - intros c Hc. destruct (Hlog c) as [_ Hq]. rewrite decide_False in Hq by exact Hc.
    rewrite app_nil_r in Hq. exact Hq.
Qed.

Lemma shared_engine_logs_every_statement_witness :
  exists w' q,
    cursor_execute engine_app "SELECT b" [] 1.5%float
      (snd (install_hooks panel_b
              (snd (add_engines panel_b request_app world_app_instrumented))))
      = (inr tt, w') /\
    sql q = "SELECT b" /\ params q = [] /\
    _queries (panel_of w' panel_a) = [(url engine_app, q)] /\
    _queries (panel_of w' panel_b) = [(url engine_app, q)] /\
    forall c, after_listener c engine_app
                ∉ registry (snd (install_hooks panel_b
                                   (snd (add_engines panel_b request_app
                                           world_app_instrumented)))) ->
              _queries (panel_of w' c) =
              _queries (panel_of
                          (snd (install_hooks panel_b
                                  (snd (add_engines panel_b request_app
                                          world_app_instrumented)))) c).
Proof.
  apply (shared_engine_logs_every_statement panel_a panel_b engine_app "SELECT b" []
           1.5%float
           (snd (install_hooks panel_b
                   (snd (add_engines panel_b request_app world_app_instrumented))))).
  - split.
    + apply NoDup_ListNoDup. vm_compute. repeat constructor.
      * intros [H|[H|[H|[]]]]; discriminate H.
      * intros [H|[H|[]]]; discriminate H.
      * intros [H|[]]; discriminate H.
      * intros [].
    + vm_compute. repeat constructor.
  - split; vm_compute; repeat constructor.
  - split; vm_compute; repeat constructor.
Defined.

(** C8, the claim as stated, fails: request A's handler runs no
    statement; while it is suspended, request B, whose session is bound
    to the same engine, is processed and runs [SELECT b]. A's hooks are
    installed on the engine at that time, so A's log ends up holding
    B's statement. *)
Lemma overlapping_request_leaks_into_log :
  let outcome :=
    process_request pipeline_overlapped_by_b panel_a request_app world0 in
  fst outcome = inr {| status_code := 200 |} /\
  _queries (panel_of (snd outcome) panel_a)
    = [("postgresql://db/app",
        {| duration := 500%float; sql := "SELECT b"; params := [] |})] /\
  _queries (panel_of (snd outcome) panel_b)
    = [("postgresql://db/app",
        {| duration := 500%float; sql := "SELECT b"; params := [] |})] /\
  registry (snd outcome) = [].
Proof. vm_compute. repeat split. Qed.

(** C9. [after_execute] on an execution context on which
    [before_execute] has not run raises [AttributeError] for
    [_start_time] and changes nothing; on the context [before_execute]
    returns, whichever panel's, it does not raise. *)
Theorem after_execute_needs_before_execute
    (self : PanelId) (context : ExecutionContext) (w : World) :
  (_start_time context = None ->
   after_execute self context w = (inl (AttributeError "_start_time"), w)) /\
  (forall self' w0 context' w1,
     before_execute self' context w0 = (inr context', w1) ->
     fst (after_execute self context' w) = inr tt).
Proof.
  split; [apply after_execute_not_started|].
  intros self' w0 context' w1 Hb. rewrite before_execute_spec in Hb.
  injection Hb as <- _.
  rewrite (after_execute_started self _ (clock w0)); reflexivity.
Qed.

Lemma after_execute_needs_before_execute_witness :
  after_execute panel_a
    {| engine := engine_app; statement := "SELECT 1"; parameters := [];
       _start_time := None |} world0
  = (inl (AttributeError "_start_time"), world0).
Proof.
  apply (proj1 (after_execute_needs_before_execute panel_a
                  {| engine := engine_app; statement := "SELECT 1"; parameters := [];
                     _start_time := None |} world0)).
  reflexivity.
Defined.

(** ** A whole request *)

(** One session bound to one engine, two statements: the log holds the
    two records in execution order under the engine's URL, and no
    listener is left. *)
Example request_with_two_statements :
  let outcome := process_request handler_two_selects panel_a request_app world0 in
  fst outcome = inr {| status_code := 200 |} /\
  _queries (panel_of (snd outcome) panel_a)
    = [("postgresql://db/app",
        {| duration := 250%float; sql := "SELECT 1"; params := [] |});
       ("postgresql://db/app",
        {| duration := 750%float; sql := "SELECT 2"; params := [] |})] /\
  registry (snd outcome) = [].
Proof. vm_compute. repeat split. Qed.

(** No resolvable session: no engine, no hook, the response goes through. *)
Example request_without_session :
  process_request handler_ok panel_a (request_of [("q", OtherValue)]) world0
  = (inr {| status_code := 200 |},
     snd (process_request handler_ok panel_a (request_of [("q", OtherValue)]) world0)) /\
  elements (engines (panel_of
              (snd (process_request handler_ok panel_a (request_of [("q", OtherValue)]) world0))
              panel_a)) = [] /\
  registry (snd (process_request handler_ok panel_a (request_of [("q", OtherValue)]) world0))
    = [].
Proof. vm_compute. repeat split. Qed.

(** * Further properties *)

(** ** Registering and unregistering by hand *)

Lemma filter_ne_absent (x : Listener) (l : list Listener) :
  x ∉ l -> filter (fun y => y ≠ x) l = l.
Proof.
  induction l as [|a l IH]; intros Hx; [reflexivity|].
  apply not_elem_of_cons in Hx as [Hne Hx].
  rewrite filter_cons_True by congruence. rewrite IH by exact Hx. reflexivity.
Qed.

Lemma filter_ne_last (x : Listener) (l : list Listener) :
  x ∉ l -> filter (fun y => y ≠ x) (l ++ [x])%list = l.
Proof.
  intros Hx. rewrite filter_app, filter_ne_absent by exact Hx.
  rewrite filter_cons_False by (intros H; apply H; reflexivity).
  rewrite filter_nil, app_nil_r. reflexivity.
Qed.

(** X1. [register] followed by [unregister] on an engine that had
    neither of the panel's listeners gives back the world exactly as it
    was: same listeners in the same order, same panels, same clock. *)
Theorem register_then_unregister_restores (self : PanelId) (e : Engine) (w : World) :
  before_listener self e ∉ registry w ->
  after_listener self e ∉ registry w ->
  (register self e ;; unregister self e) w = (inr tt, w).
Proof.
  intros Hb Ha. unfold register, unregister, bind, event_listen. cbv zeta.
  rewrite decide_False by exact Hb. simpl.
  rewrite decide_False.
  2:{ rewrite elem_of_app, list_elem_of_singleton. intros [H|H]; [auto | discriminate H]. }
  rewrite event_remove_present.
  2:{ simpl. rewrite !elem_of_app, list_elem_of_singleton. auto. }
  simpl. rewrite event_remove_present.
  2:{ simpl. rewrite filter_app, filter_ne_last by exact Hb.
      rewrite elem_of_app. right. apply list_elem_of_filter.
      split; [discriminate | apply list_elem_of_singleton; reflexivity]. }
  simpl. f_equal. unfold set_registry. simpl.
  rewrite filter_app, filter_ne_last by exact Hb.
  rewrite (filter_cons_True (fun y => y ≠ _)) by discriminate.
  rewrite filter_nil. rewrite filter_ne_last by exact Ha.
  destruct w; reflexivity.
Qed.

Lemma register_then_unregister_restores_witness :
  (register panel_b engine_shard ;; unregister panel_b engine_shard)
    world_app_instrumented = (inr tt, world_app_instrumented).
Proof.
  apply (register_then_unregister_restores panel_b engine_shard world_app_instrumented).
  - intros H. apply list_elem_of_In in H. vm_compute in H.
    destruct H as [H|[H|[]]]; discriminate H.
  - intros H. apply list_elem_of_In in H. vm_compute in H.
    destruct H as [H|[H|[]]]; discriminate H.
Defined.

(** X2. [unregister] is not atomic: on an engine that has the panel's
    before listener but not its after listener, it raises
    [InvalidRequestError] after having removed the before listener. *)
Theorem unregister_partial_failure (self : PanelId) (e : Engine) (w : World) :
  before_listener self e ∈ registry w ->
  after_listener self e ∉ registry w ->
  unregister self e w =
  (inl InvalidRequestError,
   set_registry (filter (fun l => l ≠ before_listener self e) (registry w)) w) /\
  before_listener self e ∉ registry (snd (unregister self e w)).
Proof.
  intros Hb Ha.
  assert (Hrun : unregister self e w =
                 (inl InvalidRequestError,
                  set_registry (filter (fun l => l ≠ before_listener self e) (registry w)) w)).
  { unfold unregister, bind. rewrite event_remove_present by exact Hb.
    rewrite event_remove_absent; [reflexivity|].
    simpl. rewrite list_elem_of_filter. tauto. }
  split; [exact Hrun|]. rewrite Hrun. simpl. rewrite list_elem_of_filter.
  intros [Hne _]. apply Hne. reflexivity.
Qed.

Lemma unregister_partial_failure_witness :
  before_listener panel_a engine_app
    ∉ registry (snd (unregister panel_a engine_app
                       (set_registry [before_listener panel_a engine_app] world0))).
Proof.
  apply (unregister_partial_failure panel_a engine_app
           (set_registry [before_listener panel_a engine_app] world0)).
  - left.
  - intros H. apply list_elem_of_In in H. vm_compute in H.
    destruct H as [H|[]]. discriminate H.
Defined.

(** ** Requests the panel does not instrument *)

(** X3. When discovery raises, [process_request] raises the same
    exception at once: no listener is registered and the delegated
    processing never runs, so the handler's effects and response are
    lost to an error of the panel. *)
Theorem discovery_failure_skips_delegate
    (super : PanelId -> Request -> M Response) (self : PanelId)
    (request : Request) (exn : Exn) (w w1 : World) :
  add_engines self request w = (inl exn, w1) ->
  process_request super self request w = (inl exn, w1) /\
  registry w1 = registry w.
Proof.
  intros Hadd. split.
  - unfold process_request, bind. rewrite Hadd. reflexivity.
  - pose proof (add_engines_only_adds self request w) as (Hr & _).
    rewrite Hadd in Hr. exact Hr.
Qed.

Lemma discovery_failure_skips_delegate_witness :
  process_request handler_two_selects panel_a request_unrouted world0
    = (inl (KeyError "route"), world0) /\
  registry world0 = registry world0.
Proof.
  apply (discovery_failure_skips_delegate handler_two_selects panel_a
           request_unrouted (KeyError "route") world0 world0).
  reflexivity.
Defined.

(** X4. A panel whose set is empty after discovery is transparent:
    [process_request] is the delegated processing, with the same outcome
    and the same final world, as long as the set is still empty when the
    delegated processing ends. *)
Theorem process_request_transparent_without_engines
    (super : PanelId -> Request -> M Response) (self : PanelId)
    (request : Request) (r : Result Response) (w w1 w3 : World) :
  add_engines self request w = (inr tt, w1) ->
  engines (panel_of w1 self) = ∅ ->
  super self request w1 = (r, w3) ->
  engines (panel_of w3 self) = ∅ ->
  process_request super self request w = (r, w3).
Proof.
  intros Hadd He1 Hsuper He3.
  unfold process_request, bind, get_panel, try_finally.
  rewrite Hadd, He1, elements_empty. simpl. unfold ret. rewrite Hsuper.
  rewrite He3, elements_empty. simpl. reflexivity.
Qed.

Lemma process_request_transparent_without_engines_witness :
  process_request handler_raises panel_a (request_of [("q", OtherValue)]) world0
    = (inl (OtherError "RuntimeError"), world0).
Proof.
  apply (process_request_transparent_without_engines handler_raises panel_a
           (request_of [("q", OtherValue)]) (inl (OtherError "RuntimeError"))
           world0 world0 world0); reflexivity.
Defined.

(** ** What the lifecycle does to the registry *)

Lemma own_hook_cons self a l x :
  own_hook self (a :: l) x <->
  (x = before_listener self a \/ x = after_listener self a) \/ own_hook self l x.
Proof. unfold own_hook. apply Exists_cons. Qed.

Lemma own_hook_exists self l x :
  own_hook self l x <->
  exists e, e ∈ l /\ (x = before_listener self e \/ x = after_listener self e).
Proof. unfold own_hook. apply Exists_exists. Qed.

Lemma for_each_invariant_in {A} (R : World -> World -> Prop) (l : list A)
    (body : A -> M unit) :
  (forall w, R w w) ->
  (forall w1 w2 w3, R w1 w2 -> R w2 w3 -> R w1 w3) ->
  (forall x w, x ∈ l -> R w (snd (body x w))) ->
  forall w, R w (snd (for_each l body w)).
Proof.
  intros Hrefl Htrans. induction l as [|a l IH]; intros Hbody w; simpl.
  - apply Hrefl.
  - unfold bind. pose proof (Hbody a w (list_elem_of_here a l)) as Ha.
    destruct (body a w) as [[e|[]] w1]; simpl in *; [exact Ha|].
    eapply Htrans; [exact Ha|]. apply IH. intros x w' Hx. apply Hbody. right. exact Hx.
Qed.

(** However [unregister] ends, it leaves every listener other than the
    two it is after where it was. *)
Lemma unregister_frame self e w x :
  x ≠ before_listener self e -> x ≠ after_listener self e ->
  (x ∈ registry (snd (unregister self e w)) <-> x ∈ registry w).
Proof.
  intros Hb Ha. destruct (decide (hooked self e (registry w))) as [Hk|Hk].
  - destruct (unregister_hooked self e w Hk) as (w' & -> & _ & _ & Hr & _).
    simpl. rewrite Hr. tauto.
  - destruct (unregister_unhooked self e w Hk) as (w' & -> & _ & _ & Hr).
    simpl. apply Hr, Hb.
Qed.

Lemma remove_hooks_frame self w x :
  ~ own_hook self (elements (engines (panel_of w self))) x ->
  (x ∈ registry (snd (remove_hooks self w)) <-> x ∈ registry w).
Proof.
  intros Hx. unfold remove_hooks, bind, get_panel.
  apply (for_each_invariant_in
           (fun w w' => x ∈ registry w' <-> x ∈ registry w)).
  - tauto.
  - intros w1 w2 w3 H12 H23. rewrite H23, H12. tauto.
  - intros e w0 He. apply unregister_frame; intros ->; apply Hx, own_hook_exists;
      exists e; auto.
Qed.

(** X5. [process_request] adds and removes nothing but the panel's own
    two listeners on the engines of its set: the delegated processing
    finds every other listener registered exactly when it was
    registered before, and the cleanup, whether it goes through or
    raises, leaves every other listener as the delegated processing
    left it. Listeners of other panels, and hooks the panel registered
    by hand on engines outside its set, are never touched. *)
Theorem process_request_touches_only_own_hooks
    (super : PanelId -> Request -> M Response) (self : PanelId)
    (request : Request) (r : Result Response) (w w1 w3 : World) (x : Listener) :
  add_engines self request w = (inr tt, w1) ->
  super self request (snd (install_hooks self w1)) = (r, w3) ->
  (~ own_hook self (elements (engines (panel_of w1 self))) x ->
   (x ∈ registry (snd (install_hooks self w1)) <-> x ∈ registry w)) /\
  (~ own_hook self (elements (engines (panel_of w3 self))) x ->
   (x ∈ registry (snd (process_request super self request w)) <-> x ∈ registry w3)).
Proof.
  intros Hadd Hsuper. split.
  - intros Hx. destruct (install_hooks_spec self w1) as (w2 & -> & _ & _ & Hr & _).
    simpl. rewrite Hr.
    pose proof (add_engines_only_adds self request w) as (Hreg & _).
    rewrite Hadd in Hreg. simpl in Hreg. rewrite Hreg. split; [|auto].
    intros [Hin|(e & He & Hown)]; [exact Hin|].
    exfalso. apply Hx, own_hook_exists. exists e. split; [|exact Hown].
    apply elem_of_elements, He.
  - intros Hx. rewrite process_request_blocks. unfold bind. rewrite Hadd.
    destruct (install_hooks_spec self w1) as (w2 & Hinst & _).
    rewrite Hinst in Hsuper |- *. simpl in Hsuper.
    unfold try_finally. rewrite Hsuper.
    pose proof (remove_hooks_frame self w3 x Hx) as Hfr.
    destruct (remove_hooks self w3) as [[e|[]] w4]; exact Hfr.
Qed.

Lemma process_request_touches_only_own_hooks_witness :
  after_listener panel_b engine_app
    ∈ registry (snd (process_request handler_unregisters_app panel_a request_sharded
                       (snd (register panel_b engine_app world0)))) <->
  after_listener panel_b engine_app
    ∈ registry (snd (handler_unregisters_app panel_a request_sharded
                       (snd (install_hooks panel_a
                               (snd (add_engines panel_a request_sharded
                                       (snd (register panel_b engine_app world0)))))))).
Proof.
  refine (proj2 (process_request_touches_only_own_hooks handler_unregisters_app
                   panel_a request_sharded (inr {| status_code := 200 |})
                   (snd (register panel_b engine_app world0))
                   (snd (add_engines panel_a request_sharded
                           (snd (register panel_b engine_app world0))))
                   (snd (handler_unregisters_app panel_a request_sharded
                           (snd (install_hooks panel_a
                                   (snd (add_engines panel_a request_sharded
                                           (snd (register panel_b engine_app world0))))))))
                   (after_listener panel_b engine_app) _ _) _).
  - vm_compute. reflexivity.
  - vm_compute. reflexivity.
  - intros H. apply own_hook_exists in H as (e & _ & [H|H]); discriminate H.
Defined.

Lemma filter_Forall_id {A} (P : A -> Prop) `{!forall x, Decision (P x)} (l : list A) :
  Forall P l -> filter P l = l.
Proof.
  induction 1 as [|a l Ha Hl IH]; [reflexivity|].
  rewrite filter_cons_True by exact Ha. rewrite IH. reflexivity.
Qed.

Lemma filter_Forall_nil {A} (P : A -> Prop) `{!forall x, Decision (P x)} (l : list A) :
  Forall (fun x => ~ P x) l -> filter P l = [].
Proof.
  induction 1 as [|a l Ha Hl IH]; [reflexivity|].
  rewrite filter_cons_False by exact Ha. exact IH.
Qed.

Lemma event_listen_exact target identifier fn w :
  exists fresh, event_listen target identifier fn w
                = (inr tt, set_registry (registry w ++ fresh) w) /\
    Forall (fun x => x = (target, identifier, fn)) fresh.
Proof.
  unfold event_listen. cbv zeta. destruct (decide _).
  - exists []. rewrite app_nil_r. destruct w. split; [reflexivity | constructor].
  - exists [(target, identifier, fn)]. split; [reflexivity|]. repeat constructor.
Qed.

Lemma register_exact self e w :
  exists fresh, register self e w = (inr tt, set_registry (registry w ++ fresh) w) /\
    Forall (own_hook self [e]) fresh.
Proof.
  unfold register, bind.
  destruct (event_listen_exact e before_cursor_execute (self, m_before_execute) w)
    as (f1 & -> & Hf1).
  destruct (event_listen_exact e after_cursor_execute (self, m_after_execute)
              (set_registry (registry w ++ f1) w)) as (f2 & -> & Hf2).
  exists (f1 ++ f2)%list. split.
  - unfold set_registry. simpl. rewrite <- app_assoc. reflexivity.
  - rewrite Forall_app. split.
    + eapply Forall_impl; [exact Hf1|]. intros x ->. apply own_hook_cons. auto.
    + eapply Forall_impl; [exact Hf2|]. intros x ->. apply own_hook_cons. auto.
Qed.

(** Installing hooks only appends, and appends hooks of the panel. *)
Lemma for_each_register_exact self (l : list Engine) : forall w,
  exists fresh, for_each l (register self) w
                = (inr tt, set_registry (registry w ++ fresh) w) /\
    Forall (own_hook self l) fresh.
Proof.
  induction l as [|a l IH]; intros w; simpl.
  - exists []. rewrite app_nil_r. destruct w. split; [reflexivity | constructor].
  - unfold bind. destruct (register_exact self a w) as (f1 & -> & Hf1).
    destruct (IH (set_registry (registry w ++ f1) w)) as (f2 & -> & Hf2).
    exists (f1 ++ f2)%list. split.
    + unfold set_registry. simpl. rewrite <- app_assoc. reflexivity.
    + rewrite Forall_app. split.
      * eapply Forall_impl; [exact Hf1|]. intros x Hx.
        apply own_hook_cons in Hx as [Hx|Hx]; [apply own_hook_cons; auto|].
        unfold own_hook in Hx. apply Exists_nil in Hx. contradiction.
      * eapply Forall_impl; [exact Hf2|]. intros x Hx. apply own_hook_cons. auto.
Qed.

Lemma unregister_hooked_exact self e w :
  hooked self e (registry w) ->
  unregister self e w =
  (inr tt,
   set_registry (filter (fun x => ~ own_hook self [e] x) (registry w)) w).
Proof.
  intros [Hb Ha]. unfold unregister, bind.
  rewrite event_remove_present by exact Hb.
  rewrite event_remove_present.
  2:{ simpl. apply list_elem_of_filter. split; [discriminate | exact Ha]. }
  simpl. unfold set_registry. simpl. f_equal. f_equal.
  rewrite list_filter_filter. apply list_filter_iff. intros x.
  rewrite own_hook_cons. unfold own_hook. rewrite Exists_nil.
  unfold before_listener, after_listener. tauto.
Qed.

(** Removing the hooks of distinct engines, all installed, is one filter
    of the registry. *)
Lemma for_each_unregister_exact self (l : list Engine) : forall w,
  NoDup l ->
  (forall e, e ∈ l -> hooked self e (registry w)) ->
  for_each l (unregister self) w =
  (inr tt, set_registry (filter (fun x => ~ own_hook self l x) (registry w)) w).
Proof.
  induction l as [|a l IH]; intros w Hnd Hall; simpl.
  - unfold ret. f_equal. rewrite filter_Forall_id; [destruct w; reflexivity|].
    apply Forall_forall. intros x _ H. unfold own_hook in H. apply Exists_nil in H. exact H.
  - apply NoDup_cons in Hnd as [Hnotin Hnd]. unfold bind.
    rewrite unregister_hooked_exact by (apply Hall; left).
    rewrite IH; [|exact Hnd|].
    + simpl. unfold set_registry. simpl. f_equal. f_equal.
      rewrite list_filter_filter. apply list_filter_iff. intros x.
      rewrite (own_hook_cons self a l). rewrite (own_hook_cons self a []).
      unfold own_hook at 2. rewrite Exists_nil. tauto.
    + intros e He. destruct (Hall e) as [Hb Ha]; [right; exact He|].
      assert (Hne : e ≠ a) by (intros ->; contradiction).
      simpl. split; apply list_elem_of_filter; (split; [|assumption]);
        rewrite own_hook_cons; unfold own_hook; rewrite Exists_nil;
        intros [[H|H]|[]]; try discriminate H.
      * apply before_listener_inj in H as [_ ?]. contradiction.
      * apply after_listener_inj in H as [_ ?]. contradiction.
Qed.

(** X6. One request, from start to end, leaves the registry exactly as
    it found it, and changes the outcome of the delegated processing in
    nothing: provided none of the panel's hooks on the discovered
    engines was installed beforehand, and the delegated processing
    changes neither the registry nor the panel's engine set, the final
    world is the one the delegated processing left, with the registry
    of the start, same listeners in the same order. *)
Theorem lifecycle_restores_registry
    (super : PanelId -> Request -> M Response) (self : PanelId)
    (request : Request) (r : Result Response) (w w1 w3 : World) :
  add_engines self request w = (inr tt, w1) ->
  (forall e, e ∈ engines (panel_of w1 self) ->
             (before_listener self e ∉ registry w) /\
             (after_listener self e ∉ registry w)) ->
  super self request (snd (install_hooks self w1)) = (r, w3) ->
  registry w3 = registry (snd (install_hooks self w1)) ->
  engines (panel_of w3 self) = engines (panel_of w1 self) ->
  process_request super self request w = (r, set_registry (registry w) w3).
Proof.
  intros Hadd Hfresh Hsuper Hreg Heng.
  pose proof (add_engines_only_adds self request w) as (Hr1 & _).
  rewrite Hadd in Hr1. simpl in Hr1.
  rewrite process_request_blocks. unfold bind, try_finally. rewrite Hadd.
  assert (Hinst : exists fresh,
             install_hooks self w1 = (inr tt, set_registry (registry w1 ++ fresh) w1) /\
             Forall (own_hook self (elements (engines (panel_of w1 self)))) fresh).
  { unfold install_hooks, bind, get_panel. apply for_each_register_exact. }
  destruct Hinst as (fresh & Hinst & Hown).
  rewrite Hinst in Hsuper, Hreg |- *. simpl in Hsuper, Hreg. rewrite Hsuper.
  unfold remove_hooks, bind, get_panel. rewrite Heng.
  rewrite for_each_unregister_exact.
  - f_equal. unfold set_registry. simpl. f_equal.
    rewrite Hreg, Hr1, filter_app.
    rewrite (filter_Forall_id (fun x => ~ own_hook _ _ x) (registry w)).
    + rewrite filter_Forall_nil; [apply app_nil_r|].
      eapply Forall_impl; [exact Hown|]. intros x Hx Hn. exact (Hn Hx).
    + apply Forall_forall. intros x Hx Hn.
      apply own_hook_exists in Hn as (e & He & Hn).
      apply elem_of_elements in He. destruct (Hfresh e He) as [Hb Ha].
      destruct Hn as [-> | ->]; contradiction.
  - apply NoDup_elements.
  - intros e He. apply elem_of_elements in He.
    pose proof (install_hooks_hooked self w1 e He) as Hk.
    rewrite Hinst in Hk. simpl in Hk. rewrite Hreg. exact Hk.
Qed.

Lemma lifecycle_restores_registry_witness :
  process_request handler_two_selects panel_b request_sharded world_app_instrumented
  = (inr {| status_code := 200 |},
     set_registry (registry world_app_instrumented)
       (snd (handler_two_selects panel_b request_sharded
               (snd (install_hooks panel_b
                       (snd (add_engines panel_b request_sharded
                               world_app_instrumented))))))).
Proof.
  apply (lifecycle_restores_registry handler_two_selects panel_b request_sharded
           (inr {| status_code := 200 |}) world_app_instrumented
           (snd (add_engines panel_b request_sharded world_app_instrumented))).
  - vm_compute. reflexivity.
  - intros e _. split; intros H; apply list_elem_of_In in H; vm_compute in H;
      destruct H as [H|[H|[]]]; discriminate H.
  - vm_compute. reflexivity.
  - vm_compute. reflexivity.
  - vm_compute. reflexivity.
Defined.

(** ** Statements and listeners *)

Lemma after_execute_leaves_others self context w c :
  c ≠ self ->
  panel_of (snd (after_execute self context w)) c = panel_of w c.
Proof.
  intros Hc. destruct (_start_time context) as [start|] eqn:Hs.
  - rewrite (after_execute_started self context start w Hs). simpl.
    apply panel_of_set_panel_ne, Hc.
  - rewrite (after_execute_not_started self context w Hs). reflexivity.
Qed.

Lemma after_execute_registry self context w :
  registry (snd (after_execute self context w)) = registry w.
Proof.
  destruct (_start_time context) as [start|] eqn:Hs.
  - rewrite (after_execute_started self context start w Hs). reflexivity.
  - rewrite (after_execute_not_started self context w Hs). reflexivity.
Qed.

(** However an event ends, it leaves the registry alone, and it leaves
    alone every panel whose [after_execute] is not among the listeners
    of the engine. *)
Lemma dispatch_leaves_panel (ls : list Listener) (identifier : EventName) (c : PanelId) :
  forall context w,
  (forall id, (engine context, id, (c, m_after_execute)) ∉ ls) ->
  panel_of (snd (dispatch ls identifier context w)) c = panel_of w c.
Proof.
  induction ls as [|[[target id] [q m]] ls IH]; intros context w Hc; simpl.
  - reflexivity.
  - assert (Hc' : forall id0, (engine context, id0, (c, m_after_execute)) ∉ ls).
    { intros id0 H. apply (Hc id0). right. exact H. }
    destruct (decide (target = engine context ∧ id = identifier)) as [[-> ->]|Hno].
    + unfold bind. destruct m; cbn [call_listener].
      * rewrite before_execute_spec. apply (IH (started_at (clock w) context) w Hc').
      * unfold bind, ret.
        assert (Hq : c ≠ q).
        { intros ->. apply (Hc identifier). left. }
        pose proof (after_execute_leaves_others q context w c Hq) as Hp.
        destruct (after_execute q context w) as [[e|[]] w1]; simpl in *; [exact Hp|].
        rewrite IH by exact Hc'. exact Hp.
    + apply IH, Hc'.
Qed.

Lemma dispatch_registry (ls : list Listener) (identifier : EventName) :
  forall context w,
  registry (snd (dispatch ls identifier context w)) = registry w.
Proof.
  induction ls as [|[[target id] [q m]] ls IH]; intros context w; simpl.
  - reflexivity.
  - destruct (decide (target = engine context ∧ id = identifier)) as [[-> ->]|Hno];
      [|apply IH].
    unfold bind. destruct m; cbn [call_listener].
    + rewrite before_execute_spec. apply IH.
    + unfold bind, ret. pose proof (after_execute_registry q context w) as Hr.
      destruct (after_execute q context w) as [[e|[]] w1]; simpl in *; [exact Hr|].
      rewrite IH. exact Hr.
Qed.

Lemma dispatch_engine (ls : list Listener) (identifier : EventName) :
  forall context w context' w',
  dispatch ls identifier context w = (inr context', w') ->
  engine context' = engine context.
Proof.
  induction ls as [|[[target id] [q m]] ls IH]; intros context w context' w' H;
    simpl in H.
  - injection H as <- _. reflexivity.
  - destruct (decide (target = engine context ∧ id = identifier)) as [[-> ->]|Hno];
      [|eapply IH; exact H].
    unfold bind in H. destruct m; cbn [call_listener] in H.
    + rewrite before_execute_spec in H. apply IH in H. exact H.
    + unfold bind, ret in H.
      destruct (after_execute q context w) as [[e|[]] w1]; [discriminate H|].
      eapply IH; exact H.
Qed.

(** X7. A statement executed through an engine on which a panel has no
    listener calling its [after_execute] changes nothing for that
    panel, log and engine set, whether the execution goes through or a
    listener of another panel raises: a request records nothing from
    engines it did not discover, nor anything executed after its hooks
    were removed. *)
Theorem statement_not_recorded_without_hook
    (c : PanelId) (e : Engine) (stmt : string) (ps : Parameters)
    (t : float) (w : World) :
  (forall id, (e, id, (c, m_after_execute)) ∉ registry w) ->
  panel_of (snd (cursor_execute e stmt ps t w)) c = panel_of w c.
Proof.
  intros Hc. unfold cursor_execute. cbv zeta. unfold bind, get_registry, run_until, ret.
  set (c0 := {| engine := e; statement := stmt; parameters := ps; _start_time := None |}).
  pose proof (dispatch_leaves_panel (registry w) before_cursor_execute c c0 w Hc) as H1.
  pose proof (dispatch_registry (registry w) before_cursor_execute c0 w) as Hr1.
  pose proof (dispatch_engine (registry w) before_cursor_execute c0 w) as He1.
  destruct (dispatch (registry w) before_cursor_execute c0 w) as [[x|c1] w1];
    simpl in *; [exact H1|].
  specialize (He1 c1 w1 eq_refl). simpl in He1.
  assert (Hc1 : forall id, (engine c1, id, (c, m_after_execute)) ∉ registry w1).
  { intros id. rewrite He1, Hr1. apply Hc. }
  pose proof (dispatch_leaves_panel (registry w1) after_cursor_execute c c1
                (set_clock t w1) Hc1) as H2.
  change (registry (set_clock t w1)) with (registry w1).
  destruct (dispatch (registry w1) after_cursor_execute c1 (set_clock t w1))
    as [[x|c2] w2]; simpl in *; rewrite H2; exact H1.
Qed.

Lemma statement_not_recorded_without_hook_witness :
  panel_of (snd (cursor_execute engine_app "SELECT 1" [] 2%float
                   world_app_instrumented)) panel_b
  = panel_of world_app_instrumented panel_b.
Proof.
  apply (statement_not_recorded_without_hook panel_b engine_app "SELECT 1" []
           2%float world_app_instrumented).
  intros id H. apply list_elem_of_In in H. vm_compute in H.
  destruct H as [H|[H|[]]]; discriminate H.
Defined.





(** ** What discovery finds *)

(** Inspecting a value ends the same way in every world, and adds to the
    set exactly the engines of the value. *)
Lemma inspect_value_uniform self v :
  exists r : Result unit, forall w,
    fst (inspect_value self v w) = r /\
    engines (panel_of (snd (inspect_value self v w)) self)
      = engines (panel_of w self) ∪ list_to_set (value_engines v).
Proof.
  unfold inspect_value, value_engines, session_engines.
  destruct (as_session v) as [s|].
  2:{ exists (inr tt). intros w. simpl. split; [reflexivity | set_solver]. }
  assert (Hget : exists r : Result unit, forall w,
             fst ((bind <- call_get_bind s ;; add_bind_to_engines self bind) w) = r /\
             engines (panel_of (snd ((bind <- call_get_bind s ;;
                                      add_bind_to_engines self bind) w)) self)
               = engines (panel_of w self)
                 ∪ list_to_set match get_bind s with
                               | inl _ => []
                               | inr b => [bind_engine b]
                               end).
  { unfold bind, call_get_bind. destruct (get_bind s) as [e|b].
    - exists (inl e). intros w. simpl. split; [reflexivity | set_solver].
    - exists (inr tt). intros w.
      destruct (add_bind_to_engines_spec self b w) as (w' & -> & _ & He).
      simpl. split; [reflexivity|]. rewrite He. set_solver. }
  destruct (_Session__binds s) as [[|b bs]|]; try exact Hget.
  exists (inr tt). intros w.
  destruct (add_binds_spec self (snd <$> (b :: bs)) w) as (w' & Hw' & _ & He).
  change (map snd (b :: bs)) with (snd <$> (b :: bs)). rewrite Hw'. simpl.
  split; [reflexivity|]. rewrite He. f_equal.
  change (map (fun x => bind_engine x.2) (b :: bs))
    with ((fun x : string * Bind => bind_engine x.2) <$> (b :: bs)).
  rewrite <- list_fmap_compose. reflexivity.
Qed.

(** The loop over the values: its outcome and the engines it adds do not
    depend on the world; it adds only engines of the values, and all of
    them when it ends normally. *)
Lemma for_each_inspect_uniform self (vs : list Value) :
  exists (r : Result unit) (D : gset Engine),
    D ⊆ list_to_set (mjoin (value_engines <$> vs)) /\
    (r = inr tt -> D = list_to_set (mjoin (value_engines <$> vs))) /\
    forall w,
      fst (for_each vs (inspect_value self) w) = r /\
      engines (panel_of (snd (for_each vs (inspect_value self) w)) self)
        = engines (panel_of w self) ∪ D.
Proof.
  induction vs as [|v vs IH].
  - exists (inr tt), ∅. split; [set_solver|]. split; [reflexivity|].
    intros w. simpl. split; [reflexivity | set_solver].
  - destruct (inspect_value_uniform self v) as (rv & Hv).
    destruct IH as (rs & Ds & Hsub & Hall & Hvs).
    destruct rv as [e|[]].
    + exists (inl e), (list_to_set (value_engines v)).
      split; [rewrite fmap_cons; simpl; set_solver|]. split; [discriminate|].
      intros w. simpl. unfold bind. destruct (Hv w) as [Hr He].
      destruct (inspect_value self v w) as [rw w1]. simpl in *. subst rw.
      simpl. split; [reflexivity | exact He].
    + exists rs, (list_to_set (value_engines v) ∪ Ds).
      split; [rewrite fmap_cons; simpl; set_solver|]. split.
      * intros Hr. rewrite (Hall Hr), fmap_cons. simpl. set_solver.
      * intros w. simpl. unfold bind. destruct (Hv w) as [Hr He].
        destruct (inspect_value self v w) as [rw w1]. simpl in *. subst rw.
        destruct (Hvs w1) as [Hr' He']. split; [exact Hr'|].
        rewrite He', He. set_solver.
Qed.

(** X9. When discovery returns normally, the engine set is what it was
    plus exactly the engines of the resolved sessions, plain or wrapped
    in an async session: for a session with a table of binds the engine
    of every bind (the [.engine] of a [Connection]), for any other
    session the engine of what [get_bind()] returns. Values that are
    not sessions add nothing. *)
Theorem discovery_adds_exactly_bound_engines (self : PanelId) (request : Request)
    (rt : Route) (values : list (string * Value)) (w w' : World) (e : Engine) :
  route request = Some rt ->
  dependant rt = Some (inr values) ->
  add_engines self request w = (inr tt, w') ->
  (e ∈ engines (panel_of w' self) <->
   e ∈ engines (panel_of w self) \/
   exists name v s, (name, v) ∈ values /\ as_session v = Some s /\
                    e ∈ session_engines s).
Proof.
  intros Hr Hd Hadd.
  unfold add_engines, bind, getitem_route in Hadd. rewrite Hr in Hadd. simpl in Hadd.
  rewrite Hd in Hadd. unfold try_except_HTTPException, solve_dependencies in Hadd.
  destruct (for_each_inspect_uniform self (map snd values)) as (r & D & _ & Hall & H).
  destruct (H w) as [Hres He]. rewrite Hadd in Hres, He. simpl in Hres, He.
  rewrite He, (Hall (eq_sym Hres)), elem_of_union, elem_of_list_to_set.
  apply or_iff_compat_l.
  rewrite list_elem_of_join. split.
  - intros (l & Hel & Hl). apply list_elem_of_fmap in Hl as (v & -> & Hv).
    apply list_elem_of_fmap in Hv as ([name v'] & -> & Hv). simpl in Hel.
    unfold value_engines in Hel. destruct (as_session v') as [s|] eqn:Hs.
    + exists name, v', s. auto.
    + inversion Hel.
  - intros (name & v & s & Hv & Hs & Hel). exists (value_engines v). split.
    + unfold value_engines. rewrite Hs. exact Hel.
    + apply list_elem_of_fmap_2. change v with (snd (name, v)).
      apply list_elem_of_fmap_2, Hv.
Qed.

Lemma discovery_adds_exactly_bound_engines_witness :
  engine_shard
    ∈ engines (panel_of
                 (snd (add_engines panel_a
                         (request_of [("q", OtherValue);
                                      ("conn", AsyncSessionValue (Some session_on_connection))])
                         world0)) panel_a).
Proof.
  refine (proj2 (discovery_adds_exactly_bound_engines panel_a
                   (request_of [("q", OtherValue);
                                ("conn", AsyncSessionValue (Some session_on_connection))])
                   {| dependant := Some (inr [("q", OtherValue);
                                              ("conn", AsyncSessionValue
                                                         (Some session_on_connection))]) |}
                   _ world0 _ engine_shard _ _ _) _).
  - reflexivity.
  - reflexivity.
  - vm_compute. reflexivity.
  - right. exists "conn", (AsyncSessionValue (Some session_on_connection)),
      session_on_connection.
    split; [right; left|]. split; [reflexivity | left].
Defined.

(** X10. However discovery ends, it adds to the set only engines of
    resolved sessions: an engine in the set afterwards was in it before
    or is bound to one of the resolved values. *)
Theorem discovery_adds_only_bound_engines (self : PanelId) (request : Request)
    (rt : Route) (values : list (string * Value)) (w : World) (e : Engine) :
  route request = Some rt ->
  dependant rt = Some (inr values) ->
  e ∈ engines (panel_of (snd (add_engines self request w)) self) ->
  e ∈ engines (panel_of w self) \/
  exists name v s, (name, v) ∈ values /\ as_session v = Some s /\
                   e ∈ session_engines s.
Proof.
  intros Hr Hd.
  unfold add_engines, bind, getitem_route. rewrite Hr. simpl. rewrite Hd.
  unfold try_except_HTTPException, solve_dependencies.
  destruct (for_each_inspect_uniform self (map snd values)) as (r & D & Hsub & _ & H).
  destruct (H w) as [_ He]. rewrite He, elem_of_union. intros [Hin|Hin]; [left; exact Hin|].
  right. apply Hsub, elem_of_list_to_set, list_elem_of_join in Hin as (l & Hel & Hl).
  apply list_elem_of_fmap in Hl as (v & -> & Hv).
  apply list_elem_of_fmap in Hv as ([name v'] & -> & Hv). simpl in Hel.
  unfold value_engines in Hel. destruct (as_session v') as [s|] eqn:Hs.
  - exists name, v', s. auto.
  - inversion Hel.
Qed.

Lemma discovery_adds_only_bound_engines_witness :
  engine_app ∈ engines (panel_of world0 panel_a) \/
  exists name v s,
    (name, v) ∈ [("db", SessionValue session_app);
                 ("audit", SessionValue session_unbound)] /\
    as_session v = Some s /\ engine_app ∈ session_engines s.
Proof.
  apply (discovery_adds_only_bound_engines panel_a
           (request_of [("db", SessionValue session_app);
                        ("audit", SessionValue session_unbound)])
           {| dependant := Some (inr [("db", SessionValue session_app);
                                      ("audit", SessionValue session_unbound)]) |}
           _ world0 engine_app).
  - reflexivity.
  - reflexivity.
  - change (engine_app ∈ (∅ ∪ {[ engine_app ]} : gset Engine)).
    apply elem_of_union_r, elem_of_singleton. reflexivity.
Defined.
